(** * Target-decoy FDR estimation of glycan_profiling/tandem/target_decoy.py

    A shallow embedding of [NearestValueLookUp], [ScoreThresholdCounter],
    [TargetDecoyAnalyzer] and [GroupwiseTargetDecoyAnalyzer] (Python 2 code:
    [(hi + lo) / 2] is floor division on ints, [x / float(y)] is true
    division), and the properties of the specification checked against it. *)

From Stdlib Require Import ZArith QArith List Bool Lia Sorted Lqa.
Import ListNotations.

Open Scope Z_scope.

(** ** Python values *)

(** Float scores.  Finite scores are integer-valued floats, on which
    [np.round(x, 10)] is the identity; [PInf]/[NInf] are [float('inf')] and
    its negation. *)
Inductive fscore := F (z : Z) | PInf | NInf | NaN.

(** Python's [<] on floats (false as soon as one side is NaN). *)
Definition f_lt (a b : fscore) : bool :=
  match a, b with
  | F x, F y => Z.ltb x y
  | NInf, F _ | NInf, PInf | F _, PInf => true
  | _, _ => false
  end.

(** Python's [==] on floats. *)
Definition f_eq (a b : fscore) : bool :=
  match a, b with
  | F x, F y => Z.eqb x y
  | PInf, PInf | NInf, NInf => true
  | _, _ => false
  end.

Definition np_isnan (a : fscore) : bool :=
  match a with NaN => true | _ => false end.

(** [np.round(x, 10)] on integer-valued floats, infinities and NaN.  The
    finite scores of this model are integers, which rounding leaves alone;
    the model does not cover non-integer scores, which rounding may merge
    (two scores equal to 10 decimals fall on one threshold). *)
Definition np_round10 (a : fscore) : fscore := a.

(** numpy float64 values: finite, [inf], [-inf], [nan]. *)
Inductive npfloat := NFin (q : Q) | NPosInf | NNegInf | NNaN.

(** A Python number on the FDR path: a Python int or float ([PyN]), whose
    division by zero raises [ZeroDivisionError], or a [numpy.float64]
    ([NpN]), whose division by zero only warns and yields [inf] or [nan]. *)
Inductive pynum := PyN (q : Q) | NpN (x : npfloat).

Definition Qltb (a b : Q) : bool := negb (Qle_bool b a).

Definition np_of (a : pynum) : npfloat :=
  match a with PyN q => NFin q | NpN x => x end.

Definition np_add (a b : npfloat) : npfloat :=
  match a, b with
  | NNaN, _ | _, NNaN => NNaN
  | NPosInf, NNegInf | NNegInf, NPosInf => NNaN
  | NPosInf, _ | _, NPosInf => NPosInf
  | NNegInf, _ | _, NNegInf => NNegInf
  | NFin x, NFin y => NFin (x + y)
  end.

Definition np_inf_of_sign (q : Q) : npfloat :=
  if Qltb 0 q then NPosInf else if Qltb q 0 then NNegInf else NNaN.

Definition np_mul (a b : npfloat) : npfloat :=
  match a, b with
  | NNaN, _ | _, NNaN => NNaN
  | NFin x, NFin y => NFin (x * y)
  | NFin x, NPosInf | NPosInf, NFin x => np_inf_of_sign x
  | NFin x, NNegInf | NNegInf, NFin x => np_inf_of_sign (- x)
  | NPosInf, NPosInf | NNegInf, NNegInf => NPosInf
  | NPosInf, NNegInf | NNegInf, NPosInf => NNegInf
  end.

(** [x / d] for a numpy float [x] and a finite float [d]; [zneg] tells
    whether [d], when it is zero, is [-0.0] rather than [+0.0].  The sign of
    the divisor is the sign of [d], or [zneg] when [d] is zero. *)
Definition np_div (a : npfloat) (d : Q) (zneg : bool) : npfloat :=
  let dneg := if Qeq_bool d 0 then zneg else Qltb d 0 in
  match a with
  | NNaN => NNaN
  | NFin x => if Qeq_bool d 0 then np_inf_of_sign (if zneg then - x else x)%Q
              else NFin (x / d)
  | NPosInf => if dneg then NNegInf else NPosInf
  | NNegInf => if dneg then NPosInf else NNegInf
  end.

(** Python's [<] between numbers (IEEE order, false on NaN). *)
Definition np_lt (a b : npfloat) : bool :=
  match a, b with
  | NFin x, NFin y => Qltb x y
  | NNegInf, NFin _ | NNegInf, NPosInf | NFin _, NPosInf => true
  | _, _ => false
  end.

Definition py_lt (a b : pynum) : bool := np_lt (np_of a) (np_of b).

Definition py_add (a b : pynum) : pynum :=
  match a, b with
  | PyN x, PyN y => PyN (x + y)
  | _, _ => NpN (np_add (np_of a) (np_of b))
  end.

Definition py_mul (a b : pynum) : pynum :=
  match a, b with
  | PyN x, PyN y => PyN (x * y)
  | _, _ => NpN (np_mul (np_of a) (np_of b))
  end.

(** ** Exceptions *)

Inductive exn := IndexError | KeyError | TypeError | ValueError | ZeroDivisionError | NoTermination.

Inductive result (A : Type) := Ok (a : A) | Raise (e : exn).
Arguments Ok {A} a.
Arguments Raise {A} e.

Definition rbind {A B} (r : result A) (k : A -> result B) : result B :=
  match r with Ok a => k a | Raise e => Raise e end.

Notation "'let*' x ':=' r 'in' k" := (rbind r (fun x => k))
  (at level 200, x name, r at level 100, k at level 200).

(** [a / float(d)] on Python numbers; [zneg] as in [np_div]. *)
Definition py_div_float (a : pynum) (d : Q) (zneg : bool) : result pynum :=
  match a with
  | PyN x => if Qeq_bool d 0 then Raise ZeroDivisionError else Ok (PyN (x / d))
  | NpN x => Ok (NpN (np_div x d zneg))
  end.

(** [l[i]] on a Python list (negative indices count from the end). *)
Definition py_index {A} (l : list A) (i : Z) : result A :=
  let n := Z.of_nat (length l) in
  let j := if i <? 0 then i + n else i in
  if (0 <=? j) && (j <? n) then
    match nth_error l (Z.to_nat j) with Some a => Ok a | None => Raise IndexError end
  else Raise IndexError.

(** ** [sorted], [set] and [dict] *)

Section Sorted.
Context {A : Type} (key : A -> fscore).

(** Stable insertion: [x] goes after every element it is not [<]. *)
Fixpoint sort_insert (x : A) (l : list A) : list A :=
  match l with
  | [] => [x]
  | y :: l' => if f_lt (key x) (key y) then x :: l else y :: sort_insert x l'
  end.

(** [sorted(l, key=key)]: a stable sort comparing keys with [<]; on keys
    without NaN its result is the one of Python's sort.  With NaN keys the
    order differs from Python's (which depends on the input order and on
    timsort); the properties stated here that admit NaN scores hold
    whatever that order. *)
Definition py_sorted (l : list A) : list A :=
  fold_left (fun acc x => sort_insert x acc) l [].
End Sorted.

(** A Python set of floats, as the list of its distinct elements; each NaN
    score is a distinct float object, hence a distinct element.  The list
    is in insertion order, not in the order in which CPython iterates a set
    (by hash slot, with [hash(nan) = 0]); the set is only ever passed to
    [sorted], whose result does not depend on that order when no element is
    NaN (see [py_sorted] for NaN elements). *)
Definition py_set_add (x : fscore) (s : list fscore) : list fscore :=
  if existsb (f_eq x) s then s else s ++ [x].

Definition py_set_union (s : list fscore) (l : list fscore) : list fscore :=
  fold_left (fun acc x => py_set_add x acc) l s.

Definition py_set (l : list fscore) : list fscore := py_set_union [] l.

(** A dict keyed by floats, as an association list. *)
Definition dict (V : Type) := list (fscore * V).

Fixpoint dict_set {V} (k : fscore) (v : V) (d : dict V) : dict V :=
  match d with
  | [] => [(k, v)]
  | (k', v') :: d' => if f_eq k k' then (k, v) :: d' else (k', v') :: dict_set k v d'
  end.

(** ** [NearestValueLookUp] (the ScoreIndex) *)

Record NearestValueLookUp (V : Type) := { nvl_items : list (fscore * V) }.
Arguments nvl_items {V} _.

(** [__init__]: drop NaN keys, sort by key. *)
Definition NVL_init {V} (items : dict V) : NearestValueLookUp V :=
  {| nvl_items := py_sorted fst (filter (fun x => negb (np_isnan (fst x))) items) |}.

Definition nvl_len {V} (t : NearestValueLookUp V) : Z := Z.of_nat (length (nvl_items t)).

(** The [while hi - lo] loop of [_find_closest_item]; [Ok None] is the
    implicit [return None] after the loop.  The loop makes fewer than
    [len(array)] rounds when no key is NaN, so the fuel given below suffices. *)
Fixpoint fci_loop {V} (fuel : nat) (array : list (fscore * V)) (value : fscore)
    (lo hi : Z) : result (option Z) :=
  match fuel with
  | O => Raise NoTermination
  | S fuel' =>
    if Z.eqb (hi - lo) 0 then Ok None
    else
      let i := (hi + lo) / 2 in
      let* cell := py_index array i in
      let x := fst cell in
      if f_eq x value then Ok (Some i)
      else if Z.eqb (hi - lo) 1 then Ok (Some i)
      else if f_lt x value then fci_loop fuel' array value i hi
      else if f_lt value x then fci_loop fuel' array value lo i
      else fci_loop fuel' array value lo hi
  end.

Definition _find_closest_item {V} (array : list (fscore * V)) (value : fscore)
    : result (option Z) :=
  let lo := 0 in
  let hi := Z.of_nat (length array) - 1 in
  if np_isnan value then Ok (Some lo)
  else if Z.eqb lo hi then Ok (Some lo)
  else fci_loop (S (length array)) array value lo hi.

(** [__getitem__]; [zero] is the literal [0] returned past the last key. *)
Definition nvl_getitem {V} (zero : V) (t : NearestValueLookUp V) (key : fscore)
    : result V :=
  let* ix := _find_closest_item (nvl_items t) key in
  match ix with
  | None => Raise TypeError
  | Some ix =>
    let ix := ix + 1 in
    let ix := if nvl_len t <=? ix then nvl_len t - 1 else ix in
    let* pair := py_index (nvl_items t) ix in
    if f_lt (fst pair) key then Ok zero else Ok (snd pair)
  end.

(** [get_pair(key)]: the item one past the closest one; [None + 1] is a
    TypeError. *)
Definition get_pair {V} (t : NearestValueLookUp V) (key : fscore) : result (fscore * V) :=
  let* ix := _find_closest_item (nvl_items t) key in
  match ix with
  | None => Raise TypeError
  | Some ix => py_index (nvl_items t) (ix + 1)
  end.

(** ** [ScoreThresholdCounter] *)

Record stc_state := {
  counter : dict Z;
  threshold_index : nat;
  current_threshold : fscore;
  current_count : Z;
  stc_i : Z;
  is_done : bool }.

Definition count_item (st : stc_state) : stc_state :=
  {| counter := counter st; threshold_index := threshold_index st;
     current_threshold := current_threshold st; current_count := current_count st + 1;
     stc_i := stc_i st + 1; is_done := is_done st |}.

(** The [while self.advance_threshold()] loop of [test]; [rest] is
    [self.thresholds[self.threshold_index + 1:]]. *)
Fixpoint advance_loop (item : fscore) (rest : list fscore) (st : stc_state) : stc_state :=
  match rest with
  | [] =>
    {| counter := counter st; threshold_index := S (threshold_index st);
       current_threshold := current_threshold st; current_count := current_count st;
       stc_i := stc_i st; is_done := true |}
  | t :: rest' =>
    let st' := {| counter := dict_set t (current_count st) (counter st);
                  threshold_index := S (threshold_index st);
                  current_threshold := t; current_count := current_count st;
                  stc_i := stc_i st; is_done := is_done st |} in
    if f_lt t item then advance_loop item rest' st'
    else count_item st'
  end.

Definition stc_test (thresholds : list fscore) (item : fscore) (st : stc_state) : stc_state :=
  if f_lt item (current_threshold st) then count_item st
  else advance_loop item (skipn (S (threshold_index st)) thresholds) st.

Definition find_counts (thresholds series : list fscore) (st : stc_state) : stc_state :=
  fold_left (fun st x => stc_test thresholds x st) series st.

Definition compute_complement (n : Z) (c : dict Z) : NearestValueLookUp Z :=
  NVL_init (fold_left (fun acc kv => dict_set (fst kv) (n - snd kv) acc) c []).

Record ScoreThresholdCounter := {
  stc_thresholds : list fscore;
  stc_final : stc_state;
  stc_counter : NearestValueLookUp Z;
  counts_above_threshold : NearestValueLookUp Z }.

(** [ScoreThresholdCounter(series, thresholds)] on the items' scores. *)
Definition STC_init (series thresholds : list fscore) : result ScoreThresholdCounter :=
  let series := py_sorted (fun x => x) series in
  let ths := py_sorted (fun x => x) (py_set (map np_round10 thresholds)) in
  let* t0 := py_index ths 0 in
  let st0 := {| counter := []; threshold_index := 0; current_threshold := t0;
                current_count := 0; stc_i := 0; is_done := false |} in
  let st := find_counts ths series st0 in
  Ok {| stc_thresholds := ths; stc_final := st;
        counts_above_threshold := compute_complement (Z.of_nat (length series)) (counter st);
        stc_counter := NVL_init (counter st) |}.

(** ** The negative-binomial correction *)

Section Analyzer.

(** [np.exp(_log_pi(d, k, p))]: the probability mass of the negative binomial,
    computed by the code in log space from [math.log], the table of
    [log(n!)] for [n < 20] and Stirling's formula above; the model keeps this
    floating-point value abstract.  It is used only where the code computes
    it without raising: [0 < p < 1] and [d > -21] (see [_expectation]). *)
Variable pi_mass : Q -> Z -> Q -> Q.

Fixpoint q_sum (l : list Q) : Q :=
  match l with [] => 0%Q | x :: l' => (x + q_sum l')%Q end.

(** [np.arange(t + 1)]. *)
Definition np_arange (n : Z) : list Z := map Z.of_nat (seq 0 (Z.to_nat n)).

(** [((m * pi).cumsum() / pi.cumsum())]: the j-th entry divides the first
    [j + 1] weighted masses by the first [j + 1] masses. *)
Definition cumsum_ratios (d : Q) (t : Z) (p : Q) : list npfloat :=
  map (fun j =>
         let ms := firstn (S j) (np_arange (t + 1)) in
         np_div (NFin (q_sum (map (fun k => inject_Z k * pi_mass d k p) ms)))
                (q_sum (map (fun k => pi_mass d k p) ms)) false)%Q
      (seq 0 (Z.to_nat (t + 1))).

(** [_expectation(d, t, p)] with [t] an int (never [None] on this path).
    [_log_pi] first evaluates [math.log(p)], which raises [ValueError] unless
    [p > 0]; then [log_factorial(k + d)] and [log_factorial(d)] index the
    table of [log(n!)] for [n < 20] at [int(k + d)] and [int(d)], which raises
    [IndexError] when [d <= -21] (an index below [-20]); then
    [math.log(1 - p)] raises [ValueError] unless [p < 1].  The masses are
    [np.exp] values, so a zero cumulative sum is [+0.0]. *)
Definition _expectation (d : Q) (t : Z) (p : Q) : result npfloat :=
  if negb (Qltb 0 p) then Raise ValueError
  else if Qle_bool d (-21)%Q then Raise IndexError
  else if negb (Qltb p 1) then Raise ValueError
  else py_index (cumsum_ratios d t p) t.

(** [expectation_correction(targets, decoys, ratio)]. *)
Definition expectation_correction (targets : Z) (decoys : Q) (ratio : Q) : result npfloat :=
  if Qeq_bool (1 + ratio) 0 then Raise ZeroDivisionError
  else _expectation decoys targets (1 / (1 + ratio)).

(** ** [TargetDecoyAnalyzer] *)

(** [database_ratio] and [target_weight] are floats (as the class documents
    them), and a zero one is [+0.0]. *)
Record config := {
  with_pit : bool;
  decoy_correction : Q;
  database_ratio : Q;
  target_weight : Q }.

(** Whether [float(targets_at * database_ratio * target_weight)] is [-0.0]
    when it is zero: the int [targets_at] converts to a float of its sign
    ([0] to [+0.0]), and a float product's sign bit is the exclusive or of
    its factors' sign bits. *)
Definition prod_zero_neg (t : Z) (ratio weight : Q) : bool :=
  xorb (xorb (t <? 0) (Qltb ratio 0)) (Qltb weight 0).

(** The fields set before [_calculate_q_values] runs; [None] for a count
    table is the empty dict [{}] left when there is no threshold. *)
Record tda_core := {
  tda_cfg : config;
  target_count : Z;
  decoy_count : Z;
  thresholds : list fscore;
  n_targets_at : option (NearestValueLookUp Z);
  n_decoys_at : option (NearestValueLookUp Z) }.

(** [self.n_*_at[threshold]] inside the [try] of [n_*_above_threshold];
    [Ok None] is the [except IndexError] branch taken when the table is empty. *)
Definition count_at (tbl : option (NearestValueLookUp Z)) (threshold : fscore)
    : result (option Z) :=
  match tbl with
  | None => Raise KeyError
  | Some t =>
    match nvl_getitem 0 t threshold with
    | Ok v => Ok (Some v)
    | Raise IndexError => if nvl_len t =? 0 then Ok None else Raise IndexError
    | Raise e => Raise e
    end
  end.

Definition n_decoys_above_threshold (c : tda_core) (threshold : fscore) : result Q :=
  let dc := decoy_correction (tda_cfg c) in
  let* v := count_at (n_decoys_at c) threshold in
  match v with Some v => Ok (inject_Z v + dc)%Q | None => Ok dc end.

Definition n_targets_above_threshold (c : tda_core) (threshold : fscore) : result Z :=
  let* v := count_at (n_targets_at c) threshold in
  match v with Some v => Ok v | None => Ok 0 end.

(** [target_decoy_ratio(cutoff)]; only the ratio is used by the callers.
    An exception of the correction is caught (and printed), leaving the
    correction at [0]. *)
Definition target_decoy_ratio (c : tda_core) (cutoff : fscore) : result (pynum * Z * Q) :=
  let cfg := tda_cfg c in
  let* decoys_at := n_decoys_above_threshold c cutoff in
  let* targets_at := n_targets_above_threshold c cutoff in
  let correction :=
    if Qeq_bool (decoy_correction cfg) 0 then PyN 0
    else match expectation_correction targets_at decoys_at (database_ratio cfg) with
         | Ok e => NpN e
         | Raise _ => PyN 0
         end in
  let numerator := py_add (PyN decoys_at) correction in
  let* ratio :=
    match py_div_float numerator (inject_Z targets_at * database_ratio cfg * target_weight cfg)%Q
            (prod_zero_neg targets_at (database_ratio cfg) (target_weight cfg)) with
    | Ok r => Ok r
    | Raise ZeroDivisionError => Ok numerator
    | Raise e => Raise e
    end in
  Ok (ratio, targets_at, decoys_at).

Definition estimate_percent_incorrect_targets (c : tda_core) (cutoff : fscore) : result Q :=
  let* ta := n_targets_above_threshold c cutoff in
  let* da := n_decoys_above_threshold c cutoff in
  let target_cut := inject_Z (target_count c - ta) in
  let decoy_cut := (inject_Z (decoy_count c) - da)%Q in
  if Qeq_bool decoy_cut 0 then Raise ZeroDivisionError else Ok (target_cut / decoy_cut)%Q.

Definition fdr_with_percent_incorrect_targets (c : tda_core) (cutoff : fscore) : result pynum :=
  let* pit :=
    if with_pit (tda_cfg c) then estimate_percent_incorrect_targets c cutoff else Ok 1%Q in
  let* r := target_decoy_ratio c cutoff in
  let '(ratio, _, _) := r in
  Ok (py_mul (PyN pit) ratio).

Record qv_state := { mapping : dict pynum; last_score : fscore; last_q_value : pynum }.

(** One round of the loop of [_calculate_q_values]. *)
Definition q_value_step (c : tda_core) (acc : result qv_state) (threshold : fscore)
    : result qv_state :=
  let* s := acc in
  match fdr_with_percent_incorrect_targets c threshold with
  | Ok q =>
    let q := if py_lt (last_q_value s) q && f_lt (last_score s) threshold
             then last_q_value s else q in
    Ok {| mapping := dict_set threshold q (mapping s); last_score := threshold;
          last_q_value := q |}
  | Raise ZeroDivisionError =>
    Ok {| mapping := dict_set threshold (PyN 1) (mapping s); last_score := last_score s;
          last_q_value := last_q_value s |}
  | Raise e => Raise e
  end.

Definition qv_init : qv_state := {| mapping := []; last_score := PInf; last_q_value := PyN 0 |}.

Definition _calculate_q_values (c : tda_core) : result (NearestValueLookUp pynum) :=
  let ths := py_sorted (fun x => x) (thresholds c) in
  let* s := fold_left (q_value_step c) ths (Ok qv_init) in
  Ok (NVL_init (mapping s)).

(** [calculate_thresholds] followed by the rest of [__init__], on the
    scores of the two series. *)
Definition build_core (cfg : config) (tscores dscores : list fscore) : result tda_core :=
  let ths := py_sorted (fun x => x) (py_set_union (py_set tscores) (py_set dscores)) in
  let* tables :=
    if 0 <? Z.of_nat (length ths) then
      let* st := STC_init tscores ths in
      let* sd := STC_init dscores ths in
      Ok (Some (counts_above_threshold st), Some (counts_above_threshold sd))
    else Ok (None, None) in
  Ok {| tda_cfg := cfg; target_count := Z.of_nat (length tscores);
        decoy_count := Z.of_nat (length dscores); thresholds := ths;
        n_targets_at := fst tables; n_decoys_at := snd tables |}.

(** [q_value_of(score)]: a lookup in the calibration curve. *)
Definition q_value_of (m : NearestValueLookUp pynum) (x : fscore) : result pynum :=
  nvl_getitem (PyN 0) m x.

End Analyzer.

(** ** Scored items and their shared store *)

(** A scored item: the engine reads [score] and writes [q_value]. *)
Record item := { score : fscore; q_value : pynum }.

(** Items are shared with the caller: the analyzers hold references into
    the caller's store of item objects. *)
Definition ref := nat.
Definition store := ref -> item.

Definition M (A : Type) := store -> result (A * store).

Definition mret {A} (a : A) : M A := fun s => Ok (a, s).

Definition mbind {A B} (m : M A) (k : A -> M B) : M B :=
  fun s => match m s with Ok (a, s') => k a s' | Raise e => Raise e end.

Notation "x <- m ;; k" := (mbind m (fun x => k))
  (at level 61, m at next level, right associativity).

Definition lift {A} (r : result A) : M A :=
  fun s => match r with Ok a => Ok (a, s) | Raise e => Raise e end.

Definition get_item (r : ref) : M item := fun s => Ok (s r, s).

(** [item.q_value = q]. *)
Definition set_q_value (r : ref) (q : pynum) : M unit :=
  fun s => Ok (tt, fun r' => if Nat.eqb r' r
                             then {| score := score (s r); q_value := q |} else s r').

Fixpoint mapM {A B} (f : A -> M B) (l : list A) : M (list B) :=
  match l with
  | [] => mret []
  | x :: l' => y <- f x;; ys <- mapM f l';; mret (y :: ys)
  end.

Fixpoint foldM {A B} (f : B -> A -> M B) (l : list A) (b : B) : M B :=
  match l with
  | [] => mret b
  | x :: l' => b' <- f b x;; foldM f l' b'
  end.

Fixpoint iterM {A} (f : A -> M unit) (l : list A) : M unit :=
  match l with
  | [] => mret tt
  | x :: l' => _ <- f x;; iterM f l'
  end.

Definition read_score (r : ref) : M fscore := it <- get_item r;; mret (score it).

Section Objects.

Variable pi_mass : Q -> Z -> Q -> Q.

Record TargetDecoyAnalyzer := {
  tda_targets : list ref;
  tda_decoys : list ref;
  tda_fields : tda_core;
  _q_value_map : NearestValueLookUp pynum }.

(** [TargetDecoyAnalyzer(target_series, decoy_series, ...)]. *)
Definition TDA_init (cfg : config) (targets decoys : list ref) : M TargetDecoyAnalyzer :=
  ts <- mapM read_score targets;;
  ds <- mapM read_score decoys;;
  c <- lift (build_core cfg ts ds);;
  m <- lift (_calculate_q_values pi_mass c);;
  mret {| tda_targets := targets; tda_decoys := decoys; tda_fields := c; _q_value_map := m |}.

(** [score(spectrum_match)]. *)
Definition tda_score (a : TargetDecoyAnalyzer) (r : ref) : M ref :=
  x <- read_score r;;
  q <- lift (q_value_of (_q_value_map a) x);;
  _ <- set_q_value r q;;
  mret r.

(** [q_values()]. *)
Definition tda_q_values (a : TargetDecoyAnalyzer) : M unit :=
  let apply r := (x <- read_score r;;
                  q <- lift (q_value_of (_q_value_map a) x);;
                  set_q_value r q) in
  _ <- iterM apply (tda_targets a);;
  iterM apply (tda_decoys a).

(** ** [GroupwiseTargetDecoyAnalyzer] *)

Definition predicate := item -> bool.

Record GroupwiseTargetDecoyAnalyzer := {
  g_cfg : config;
  grouping_functions : list predicate;
  groups : list (list ref * list ref);
  group_fits : list TargetDecoyAnalyzer }.

(** The index of the first predicate that holds, [None] when none does. *)
Fixpoint first_match (fns : list predicate) (it : item) : option nat :=
  match fns with
  | [] => None
  | fn :: fns' => if fn it then Some 0%nat
                  else match first_match fns' it with Some i => Some (S i) | None => None end
  end.

(** The items [partition] puts in bucket [i]: those whose first matching
    predicate is the [i]-th. *)
Definition in_group (fns : list predicate) (i : nat) (it : item) : bool :=
  match first_match fns it with Some j => Nat.eqb j i | None => false end.

Definition find_group (fns : list predicate) (r : ref) : M (option nat) :=
  it <- get_item r;; mret (first_match fns it).

Fixpoint list_set {A} (l : list A) (i : nat) (x : A) : list A :=
  match l, i with
  | [], _ => []
  | _ :: l', O => x :: l'
  | y :: l', S i' => y :: list_set l' i' x
  end.

(** [self.groups[i][side].append(r)]; [self.groups[None]] is a TypeError. *)
Definition append_to_group (side_target : bool) (i : option nat) (r : ref)
    (gs : list (list ref * list ref)) : result (list (list ref * list ref)) :=
  match i with
  | None => Raise TypeError
  | Some i =>
    let* g := py_index gs (Z.of_nat i) in
    let g' := if side_target then (fst g ++ [r], snd g) else (fst g, snd g ++ [r]) in
    Ok (list_set gs i g')
  end.

(** [partition()]. *)
Definition partition (cfg : config) (fns : list predicate) (targets decoys : list ref)
    (gs : list (list ref * list ref)) : M (list (list ref * list ref) * list TargetDecoyAnalyzer) :=
  gs <- foldM (fun gs r => i <- find_group fns r;; lift (append_to_group true i r gs)) targets gs;;
  gs <- foldM (fun gs r => i <- find_group fns r;; lift (append_to_group false i r gs)) decoys gs;;
  fits <- mapM (fun g => TDA_init cfg (fst g) (snd g)) gs;;
  mret (gs, fits).

(** [GroupwiseTargetDecoyAnalyzer(...)]: [add_group] gives every function an
    empty [([], [])] group, then [partition] runs. *)
Definition GTDA_init (cfg : config) (targets decoys : list ref)
    (grouping : option (list predicate)) : M GroupwiseTargetDecoyAnalyzer :=
  let fns := match grouping with None => [fun _ => true] | Some fns => fns end in
  let gs := map (fun _ => ([], [])) fns in
  p <- partition cfg fns targets decoys gs;;
  mret {| g_cfg := cfg; grouping_functions := fns; groups := fst p; group_fits := snd p |}.

Definition gtda_q_values (g : GroupwiseTargetDecoyAnalyzer) : M unit :=
  iterM tda_q_values (group_fits g).

(** [score(spectrum_match)]: [self.group_fits[i]] with [i = find_group(...)]. *)
Definition gtda_score (g : GroupwiseTargetDecoyAnalyzer) (r : ref) : M ref :=
  i <- find_group (grouping_functions g) r;;
  fit <- lift (match i with
               | None => Raise TypeError
               | Some i => py_index (group_fits g) (Z.of_nat i)
               end);;
  tda_score fit r.

End Objects.

(** ** Concrete instances used on examples *)

Fixpoint binom (n k : nat) : Z :=
  match n, k with
  | _, O => 1
  | O, S _ => 0
  | S n', S k' => binom n' k' + binom n' k
  end.

(** The exact negative-binomial mass [C(k + d, k) p^k (1 - p)^(d + 1)] for an
    integral [d >= 0], the real number the code's log-space formula computes. *)
Definition nb_mass_exact (d : Q) (k : Z) (p : Q) : Q :=
  let n := Z.to_nat (Qnum d / Zpos (Qden d)) in
  (inject_Z (binom (Z.to_nat k + n) (Z.to_nat k)) * Qpower p k
   * Qpower (1 - p) (Z.of_nat n + 1))%Q.

(** A store whose first items carry the given scores (q-values start at 0). *)
Definition store_of (scores : list fscore) : store :=
  fun r => {| score := nth r scores NaN; q_value := PyN 0 |}.

Definition cfg_of (pit : bool) (dc ratio weight : Q) : config :=
  {| with_pit := pit; decoy_correction := dc; database_ratio := ratio; target_weight := weight |}.

(** ** Predicates used by the properties *)

(** A score that is not NaN. *)
Definition nonnan (x : fscore) : Prop := np_isnan x = false.

(** Python's [<] on scores, as a relation. *)
Definition flt (a b : fscore) : Prop := f_lt a b = true.

(** Two consecutive points of a calibration curve: strictly increasing
    thresholds, q-values that are Python floats and do not increase. *)
Definition curve_rel (a b : fscore * pynum) : Prop :=
  f_lt (fst a) (fst b) = true /\ exists qa qb, snd a = PyN qa /\ snd b = PyN qb /\ (qb <= qa)%Q.

(** The running count of a [ScoreThresholdCounter] is non-negative and bounds
    every snapshot stored in its counter. *)
Definition counts_within (st : stc_state) : Prop :=
  0 <= current_count st /\ Forall (fun kv => 0 <= snd kv <= current_count st) (counter st).

(** Every value of a count table lies in [[0, n]]. *)
Definition table_within (tbl : option (NearestValueLookUp Z)) (n : Z) : Prop :=
  forall t, tbl = Some t -> Forall (fun kv => 0 <= snd kv <= n) (nvl_items t).

(** The keys of a Python dict are pairwise distinct ([==] never holds
    between two of them). *)
Definition py_dict_ok {V} (d : dict V) : Prop :=
  ForallOrdPairs (fun a b => f_eq (fst a) (fst b) = false) d.

(** * Properties *)

(** ** Generic facts on the Python containers *)

Lemma mapM_read_score (l : list ref) (s : store) :
  mapM read_score l s = Ok (map (fun r => score (s r)) l, s).
Proof.
  induction l as [|r l IH]; [reflexivity|].
  change (mapM read_score (r :: l) s) with
    (match mapM read_score l s with
     | Ok (ys, s') => Ok (score (s r) :: ys, s') | Raise e => Raise e end).
  rewrite IH. reflexivity.
Qed.

Lemma In_sort_insert {A} (key : A -> fscore) (x y : A) (l : list A) :
  In y (sort_insert key x l) <-> y = x \/ In y l.
Proof.
  induction l as [|z l IH]; cbn [sort_insert].
  - simpl; intuition.
  - destruct (f_lt (key x) (key z)); simpl; rewrite ?IH; intuition.
Qed.

Lemma In_fold_insert {A} (key : A -> fscore) (y : A) (l acc : list A) :
  In y (fold_left (fun acc x => sort_insert key x acc) l acc) <-> In y l \/ In y acc.
Proof.
  revert acc; induction l as [|x l IH]; intros acc; simpl.
  - intuition.
  - rewrite IH, In_sort_insert. intuition.
Qed.

Lemma In_py_sorted {A} (key : A -> fscore) (y : A) (l : list A) :
  In y (py_sorted key l) <-> In y l.
Proof. unfold py_sorted. rewrite In_fold_insert. simpl. intuition. Qed.

Lemma py_set_add_keeps (x y : fscore) (s : list fscore) : In y s -> In y (py_set_add x s).
Proof.
  unfold py_set_add. destruct (existsb (f_eq x) s); [auto|].
  intros; apply in_or_app; auto.
Qed.

Lemma py_set_add_nan (s : list fscore) : In NaN (py_set_add NaN s).
Proof.
  unfold py_set_add.
  replace (existsb (f_eq NaN) s) with false
    by (induction s as [|z s IH]; simpl; auto).
  apply in_or_app; simpl; auto.
Qed.

Lemma py_set_union_keeps (s l : list fscore) (y : fscore) :
  In y s -> In y (py_set_union s l).
Proof.
  unfold py_set_union. revert s; induction l as [|x l IH]; intros s H; simpl; auto.
  apply IH, py_set_add_keeps, H.
Qed.

Lemma py_set_union_nan (s l : list fscore) :
  In NaN l -> In NaN (py_set_union s l).
Proof.
  unfold py_set_union. revert s; induction l as [|x l IH]; intros s H; simpl in *.
  - contradiction.
  - destruct H as [->|H].
    + apply py_set_union_keeps, py_set_add_nan.
    + apply IH, H.
Qed.

Lemma build_core_thresholds cfg ts ds c :
  build_core cfg ts ds = Ok c ->
  thresholds c = py_sorted (fun x => x) (py_set_union (py_set ts) (py_set ds)).
Proof.
  unfold build_core. intros H.
  destruct (0 <? _); [|inversion H; reflexivity].
  destruct (STC_init ts _); [|discriminate].
  destruct (STC_init ds _); [|discriminate].
  inversion H; reflexivity.
Qed.

Lemma NVL_init_no_nan {V} (d : dict V) :
  Forall (fun kv => np_isnan (fst kv) = false) (nvl_items (NVL_init d)).
Proof.
  apply Forall_forall. intros kv Hin. simpl in Hin.
  apply In_py_sorted, filter_In in Hin. destruct Hin as [_ H].
  destruct (np_isnan (fst kv)); [discriminate|reflexivity].
Qed.

Lemma TDA_init_inv pi cfg ts ds s est s' :
  TDA_init pi cfg ts ds s = Ok (est, s') ->
  s' = s /\ tda_targets est = ts /\ tda_decoys est = ds /\
  build_core cfg (map (fun r => score (s r)) ts) (map (fun r => score (s r)) ds) = Ok (tda_fields est) /\
  _calculate_q_values pi (tda_fields est) = Ok (_q_value_map est).
Proof.
  unfold TDA_init, mbind. rewrite !mapM_read_score.
  unfold lift. destruct (build_core _ _ _) as [c|] eqn:Hc; [|discriminate].
  destruct (_calculate_q_values pi c) as [m|] eqn:Hm; [|discriminate].
  unfold mret. intros H; inversion H; subst; simpl; auto.
Qed.

(** ** The concrete scenario of the specification *)

(** C2 (code evaluated on the spec's scenario): targets [5; 4; 3], decoys
    [4; 2], no PIT, no correction.  The thresholds are [2; 3; 4; 5] and at 5
    the counts are 1 and 0 with ratio 0 as stated, but at threshold 4 the
    target lookup returns the count stored for 5 (1, not 2), so the raw
    ratio is 1, and [q_value_of(4)] is the q-value of threshold 5, i.e. 0,
    not 0.5. *)
Theorem c2_scenario_evaluated :
  exists est s',
    TDA_init nb_mass_exact (cfg_of false 0 1 1) [0; 1; 2]%nat [3; 4]%nat
      (store_of [F 5; F 4; F 3; F 4; F 2]) = Ok (est, s') /\
    thresholds (tda_fields est) = [F 2; F 3; F 4; F 5] /\
    n_targets_above_threshold (tda_fields est) (F 4) = Ok 1 /\
    n_decoys_above_threshold (tda_fields est) (F 4) = Ok 1%Q /\
    target_decoy_ratio nb_mass_exact (tda_fields est) (F 4) = Ok (PyN 1, 1, 1%Q) /\
    target_decoy_ratio nb_mass_exact (tda_fields est) (F 5) = Ok (PyN 0, 1, 0%Q) /\
    q_value_of (_q_value_map est) (F 5) = Ok (PyN 0) /\
    q_value_of (_q_value_map est) (F 4) = Ok (PyN 0).
Proof.
  do 2 eexists. split; [cbv; reflexivity|].
  vm_compute. repeat split.
Qed.

(** ** ScoreIndex lookups *)

(** C4 (code evaluated on a failing input): in the ScoreIndex [{2: 10, 3: 20}]
    the query 2, an exact key, returns 20, the value of the next key, and
    so does the query 1 (below every key); the query 4 past the last key
    returns the default 0. *)
Theorem c4_lookup_steps_past_exact_key :
  nvl_getitem 0 (NVL_init [(F 2, 10); (F 3, 20)]) (F 2) = Ok 20 /\
  nvl_getitem 0 (NVL_init [(F 2, 10); (F 3, 20)]) (F 1) = Ok 20 /\
  nvl_getitem 0 (NVL_init [(F 2, 10); (F 3, 20)]) (F 4) = Ok 0.
Proof. vm_compute. repeat split. Qed.

(** ** Threshold counting *)

(** C5 (code evaluated on a failing input): items scored [1; 1] counted
    against thresholds [1; 2].  No below-count is recorded for threshold 1,
    and threshold 2 gets below-count 0 although both items score below it;
    the complement then reports 2 items at or above 2, where there are none. *)
Theorem c5_counter_on_duplicates :
  exists c,
    STC_init [F 1; F 1] [F 1; F 2] = Ok c /\
    counter (stc_final c) = [(F 2, 0)] /\
    nvl_items (counts_above_threshold c) = [(F 2, 2)].
Proof. eexists. split; [cbv; reflexivity|]. vm_compute. split; reflexivity. Qed.

(** ** Empty ScoreIndex *)

Lemma nvl_getitem_empty {V} (zero : V) (key : fscore) :
  nvl_getitem zero {| nvl_items := [] |} key = Raise IndexError.
Proof. destruct key; reflexivity. Qed.

(** C6 (counterexample): looking up a query in an empty ScoreIndex raises
    [IndexError]; so does [score] on the analyzer fitted on two empty
    populations. *)
Lemma c6_empty_lookup_raises :
  nvl_getitem 0 (NVL_init []) (F 0) = Raise IndexError /\
  exists est s',
    TDA_init nb_mass_exact (cfg_of false 0 1 1) [] [] (store_of [F 1]) = Ok (est, s') /\
    tda_score est 0%nat s' = Raise IndexError.
Proof.
  split; [reflexivity|].
  do 2 eexists. split; cbv; reflexivity.
Qed.

(** C6 (amended): every lookup in an empty ScoreIndex raises [IndexError];
    each count lookup of the analyzer catches it when its own table is
    empty, whatever the other table holds: [n_targets_above_threshold]
    returns 0 when the target table is empty, and [n_decoys_above_threshold]
    returns [decoy_correction] when the decoy table is empty. *)
Theorem c6_empty_index_raises_counts_fall_back (V : Type) (zero : V) (key : fscore)
    (c : tda_core) (t : fscore) :
  nvl_getitem zero {| nvl_items := [] |} key = Raise IndexError /\
  (n_targets_at c = Some {| nvl_items := [] |} -> n_targets_above_threshold c t = Ok 0) /\
  (n_decoys_at c = Some {| nvl_items := [] |} ->
     n_decoys_above_threshold c t = Ok (decoy_correction (tda_cfg c))).
Proof.
  split; [apply nvl_getitem_empty|].
  unfold n_targets_above_threshold, n_decoys_above_threshold, count_at.
  split; intros E; rewrite E, nvl_getitem_empty; reflexivity.
Qed.

Lemma c6_empty_index_raises_counts_fall_back_witness :
  exists c,
    build_core (cfg_of false 1 1 1) [F 1; F 2] [] = Ok c /\
    n_targets_at c <> Some {| nvl_items := [] |} /\
    n_decoys_at c = Some {| nvl_items := [] |} /\
    n_decoys_above_threshold c (F 2) = Ok 1%Q.
Proof.
  eexists. split; [cbv; reflexivity|].
  split; [discriminate|]. split; [reflexivity|].
  refine (proj2 (proj2 (c6_empty_index_raises_counts_fall_back Z 0 (F 2) _ (F 2))) _).
  reflexivity.
Defined.

(** ** NaN scores *)

(** C7 (counterexample): a single target scored NaN makes NaN the only
    threshold of the analyzer. *)
Lemma c7_nan_threshold :
  exists est s',
    TDA_init nb_mass_exact (cfg_of false 0 1 1) [0%nat] [] (store_of [NaN]) = Ok (est, s') /\
    thresholds (tda_fields est) = [NaN].
Proof. do 2 eexists. split; cbv; reflexivity. Qed.

(** C7 (amended): a NaN score of a target or a decoy is kept in the
    analyzer's threshold list; NaN keys are dropped when a ScoreIndex is
    built, so no ScoreIndex (count tables, q-value curve) has a NaN key. *)
Theorem c7_nan_kept_in_thresholds_dropped_from_indexes pi cfg ts ds s est s'
    (H : TDA_init pi cfg ts ds s = Ok (est, s')) :
  (In NaN (map (fun r => score (s r)) (ts ++ ds)) -> In NaN (thresholds (tda_fields est))) /\
  (forall (V : Type) (d : dict V), Forall (fun kv => np_isnan (fst kv) = false) (nvl_items (NVL_init d))).
Proof.
  apply TDA_init_inv in H. destruct H as (_ & _ & _ & Hc & _).
  split; [|intros; apply NVL_init_no_nan].
  intros Hin. rewrite (build_core_thresholds _ _ _ _ Hc), In_py_sorted.
  rewrite map_app in Hin. apply in_app_or in Hin. destruct Hin as [Hin|Hin].
  - apply py_set_union_keeps. apply py_set_union_nan, Hin.
  - apply py_set_union_nan, py_set_union_nan, Hin.
Qed.

Lemma c7_nan_kept_in_thresholds_dropped_from_indexes_witness :
  exists est s',
    TDA_init nb_mass_exact (cfg_of false 0 1 1) [0%nat] [1%nat] (store_of [NaN; F 2]) = Ok (est, s') /\
    (In NaN (map (fun r => score (store_of [NaN; F 2] r)) ([0%nat] ++ [1%nat])) ->
     In NaN (thresholds (tda_fields est))).
Proof.
  assert (H : exists est s',
             TDA_init nb_mass_exact (cfg_of false 0 1 1) [0%nat] [1%nat]
               (store_of [NaN; F 2]) = Ok (est, s'))
    by (do 2 eexists; cbv; reflexivity).
  destruct H as (est & s' & H). exists est, s'. split; [exact H|].
  exact (proj1 (c7_nan_kept_in_thresholds_dropped_from_indexes _ _ _ _ _ _ _ H)).
Defined.

(** ** Division by zero in [target_decoy_ratio] *)

Lemma Qltb_true (a b : Q) : Qltb a b = true <-> (a < b)%Q.
Proof.
  unfold Qltb. rewrite negb_true_iff. split.
  - intros H. apply Qnot_le_lt. intros H'. apply Qle_bool_iff in H'. congruence.
  - intros H. destruct (Qle_bool b a) eqn:E; [|reflexivity].
    apply Qle_bool_iff in E. exfalso. apply (Qlt_not_le _ _ H E).
Qed.

Lemma expectation_no_targets pi d p (Hp0 : (0 < p)%Q) (Hp1 : (p < 1)%Q) (Hd : (-21 < d)%Q) :
  exists e, _expectation pi d 0 p = Ok e /\ (e = NNaN \/ exists z, e = NFin z /\ (z == 0)%Q).
Proof.
  assert (E : _expectation pi d 0 p =
              Ok (np_div (NFin (inject_Z 0 * pi d 0 p + 0)) (pi d 0 p + 0) false)).
  { unfold _expectation. rewrite (proj2 (Qltb_true 0 p) Hp0), (proj2 (Qltb_true p 1) Hp1).
    destruct (Qle_bool d (-21)%Q) eqn:E.
    - apply Qle_bool_iff in E. exfalso. exact (Qlt_not_le _ _ Hd E).
    - reflexivity. }
  rewrite E. eexists; split; [reflexivity|].
  unfold np_div. destruct (Qeq_bool _ 0).
  - left. reflexivity.
  - right. eexists; split; [reflexivity|]. reflexivity.
Qed.

Lemma Qltb_false (a b : Q) : Qltb a b = false <-> (b <= a)%Q.
Proof.
  unfold Qltb. rewrite negb_false_iff. split; [apply Qle_bool_iff|apply Qle_bool_iff].
Qed.

(** C8 (code_bug, the code at [targets_at == 0] with the correction on):
    with [decoy_correction] nonzero and [database_ratio > 0] (so that
    [p = 1 / (1 + ratio)] lies in (0, 1) and [_log_pi] raises nothing), the
    correction [_expectation(d, 0, p)] is a [numpy.float64] (0, or nan if the
    mass underflows), so the numerator is a numpy float and its division by
    [float(0)] raises no [ZeroDivisionError]: the ratio is [inf], [-inf]
    (when the zero divisor is [-0.0], for a negative [target_weight]) or
    [nan], never the raw numerator [decoys_at + correction]. *)
Theorem c8_zero_targets_with_correction_not_numerator (pi : Q -> Z -> Q -> Q) (c : tda_core) (cutoff : fscore) (d : Q)
  (Hdc : Qeq_bool (decoy_correction (tda_cfg c)) 0 = false)
  (Ht : n_targets_above_threshold c cutoff = Ok 0)
  (Hd : n_decoys_above_threshold c cutoff = Ok d)
  (Hpos : (0 < d)%Q)
  (Hr : (0 < database_ratio (tda_cfg c))%Q) :
  exists x, target_decoy_ratio pi c cutoff = Ok (NpN x, 0, d) /\
            (x = NPosInf \/ x = NNegInf \/ x = NNaN).
Proof.
  assert (H1 : Qeq_bool (1 + database_ratio (tda_cfg c)) 0 = false).
  { destruct (Qeq_bool (1 + database_ratio (tda_cfg c)) 0) eqn:E; [|reflexivity].
    apply Qeq_bool_iff in E. lra. }
  assert (Hp0 : (0 < 1 / (1 + database_ratio (tda_cfg c)))%Q)
    by (apply Qlt_shift_div_l; lra).
  assert (Hp1 : (1 / (1 + database_ratio (tda_cfg c)) < 1)%Q)
    by (apply Qlt_shift_div_r; lra).
  unfold target_decoy_ratio. rewrite Hd, Ht. cbn [rbind]. rewrite Hdc.
  unfold expectation_correction. rewrite H1.
  destruct (expectation_no_targets pi d _ Hp0 Hp1 ltac:(lra)) as (e & He & Hv).
  rewrite He.
  destruct Hv as [->|(z & -> & Hz)].
  - exists NNaN. split; [reflexivity|right; right; reflexivity].
  - cbn [py_add np_of np_add py_div_float np_div].
    replace (Qeq_bool (inject_Z 0 * database_ratio (tda_cfg c) * target_weight (tda_cfg c)) 0)
      with true by reflexivity.
    unfold prod_zero_neg.
    replace (Qltb (database_ratio (tda_cfg c)) 0) with false
      by (symmetry; apply Qltb_false; lra).
    replace (0 <? 0) with false by reflexivity.
    destruct (Qltb (target_weight (tda_cfg c)) 0); cbn [xorb]; unfold np_inf_of_sign.
    + exists NNegInf. split; [|right; left; reflexivity].
      replace (Qltb 0 (- (d + z))) with false by (symmetry; apply Qltb_false; lra).
      replace (Qltb (- (d + z)) 0) with true by (symmetry; apply Qltb_true; lra).
      reflexivity.
    + exists NPosInf. split; [|left; reflexivity].
      replace (Qltb 0 (d + z)) with true by (symmetry; apply Qltb_true; lra).
      reflexivity.
Qed.

Lemma c8_zero_targets_with_correction_not_numerator_witness :
  exists c,
    build_core (cfg_of false 1 1 1) [F 1] [F 2; F 3] = Ok c /\
    exists x, target_decoy_ratio nb_mass_exact c (F 3) = Ok (NpN x, 0, 2%Q) /\
              (x = NPosInf \/ x = NNegInf \/ x = NNaN).
Proof.
  eexists. split; [cbv; reflexivity|].
  apply c8_zero_targets_with_correction_not_numerator; vm_compute; reflexivity.
Defined.

(** ** Grouped analyzers *)

Lemma py_index_nat {A} (l : list A) (j : nat) :
  py_index l (Z.of_nat j) = match nth_error l j with Some a => Ok a | None => Raise IndexError end.
Proof.
  unfold py_index.
  replace (Z.of_nat j <? 0) with false by (symmetry; apply Z.ltb_ge; lia).
  destruct (Nat.lt_ge_cases j (length l)) as [Hlt|Hge].
  - replace ((0 <=? Z.of_nat j) && (Z.of_nat j <? Z.of_nat (length l))) with true
      by (symmetry; apply andb_true_iff; split; [apply Z.leb_le|apply Z.ltb_lt]; lia).
    rewrite Nat2Z.id. reflexivity.
  - replace ((0 <=? Z.of_nat j) && (Z.of_nat j <? Z.of_nat (length l))) with false
      by (symmetry; apply andb_false_iff; right; apply Z.ltb_ge; lia).
    rewrite (proj2 (nth_error_None l j) Hge). reflexivity.
Qed.

Lemma nth_error_list_set {A} (l : list A) (i j : nat) (x : A) :
  (j < length l)%nat ->
  nth_error (list_set l j x) i = if Nat.eqb i j then Some x else nth_error l i.
Proof.
  revert i j; induction l as [|y l IH]; intros i j Hj; simpl in Hj; [lia|].
  destruct j as [|j], i as [|i]; simpl; auto.
  apply IH; lia.
Qed.

Lemma length_list_set {A} (l : list A) (j : nat) (x : A) : length (list_set l j x) = length l.
Proof. revert j; induction l as [|y l IH]; intros [|j]; simpl; auto. Qed.

Lemma first_match_lt fns it j : first_match fns it = Some j -> (j < length fns)%nat.
Proof.
  revert j; induction fns as [|fn fns IH]; intros j H; simpl in H; [discriminate|].
  destruct (fn it); [inversion H; simpl; lia|].
  destruct (first_match fns it) as [k|]; [inversion H; subst; simpl; specialize (IH k eq_refl); lia|discriminate].
Qed.

Lemma foldM_cons {A B} (f : B -> A -> M B) x l b s :
  foldM f (x :: l) b s = match f b x s with Ok (b', s') => foldM f l b' s' | Raise e => Raise e end.
Proof. reflexivity. Qed.

Lemma find_group_step side_target fns r gs s :
  (i <- find_group fns r;; lift (append_to_group side_target i r gs)) s
  = match append_to_group side_target (first_match fns (s r)) r gs with
    | Ok a => Ok (a, s) | Raise e => Raise e end.
Proof. reflexivity. Qed.

(** One pass of [partition] over a series: every item goes, in order, to the
    bucket of its first matching predicate; the store is only read. *)
Lemma partition_pass fns side_target (l : list ref) gs gs' s s' :
  length gs = length fns ->
  foldM (fun gs r => i <- find_group fns r;; lift (append_to_group side_target i r gs)) l gs s
    = Ok (gs', s') ->
  s' = s /\ length gs' = length gs /\
  forall i g, nth_error gs i = Some g ->
    nth_error gs' i =
      Some (if side_target then (fst g ++ filter (fun r => in_group fns i (s r)) l, snd g)
            else (fst g, snd g ++ filter (fun r => in_group fns i (s r)) l)).
Proof.
  revert gs; induction l as [|r l IH]; intros gs Hlen H.
  - simpl in H. inversion H; subst. split; [reflexivity|split; [reflexivity|]].
    intros i g Hg. rewrite Hg, !app_nil_r. destruct side_target, g; reflexivity.
  - rewrite foldM_cons, find_group_step in H. unfold append_to_group in H.
    destruct (first_match fns (s r)) as [j|] eqn:Hj; [|discriminate].
    pose proof (first_match_lt _ _ _ Hj) as Hjlt.
    rewrite py_index_nat in H.
    destruct (nth_error gs j) as [gj|] eqn:Hgj;
      [|apply nth_error_None in Hgj; lia].
    cbn [rbind] in H.
    remember (list_set gs j (if side_target then (fst gj ++ [r], snd gj)
                             else (fst gj, snd gj ++ [r]))) as gs1 eqn:Egs1.
    assert (Hlen1 : length gs1 = length fns) by (subst gs1; rewrite length_list_set; auto).
    destruct (IH gs1 Hlen1 H) as (Hs & Hl & Hn). subst s'.
    split; [reflexivity|split; [subst gs1; rewrite length_list_set in Hl; auto|]].
    intros i g Hg.
    assert (Hg1 : nth_error gs1 i =
      Some (if Nat.eqb i j then (if side_target then (fst gj ++ [r], snd gj)
                                 else (fst gj, snd gj ++ [r])) else g)).
    { subst gs1; rewrite nth_error_list_set by lia. destruct (Nat.eqb i j); auto. }
    rewrite (Hn _ _ Hg1). cbn [filter].
    replace (in_group fns i (s r)) with (Nat.eqb j i) by (unfold in_group; rewrite Hj; reflexivity).
    destruct (Nat.eqb j i) eqn:Eji.
    + apply Nat.eqb_eq in Eji; subst j. rewrite Nat.eqb_refl.
      rewrite Hg in Hgj; inversion Hgj; subst gj.
      destruct side_target; simpl; rewrite <- app_assoc; reflexivity.
    + rewrite Nat.eqb_sym, Eji. reflexivity.
Qed.

Lemma mapM_TDA_init pi cfg gs fits s s' :
  mapM (fun g => TDA_init pi cfg (fst g) (snd g)) gs s = Ok (fits, s') ->
  s' = s /\ length fits = length gs /\
  forall i g, nth_error gs i = Some g ->
    exists fit, nth_error fits i = Some fit /\ TDA_init pi cfg (fst g) (snd g) s = Ok (fit, s).
Proof.
  revert fits s'; induction gs as [|g0 gs IH]; intros fits s' H.
  - simpl in H; inversion H; subst. split; [reflexivity|split; [reflexivity|]].
    intros [|i] g Hg; discriminate.
  - cbn [mapM] in H. unfold mbind at 1 in H.
    destruct (TDA_init pi cfg (fst g0) (snd g0) s) as [[fit0 s0]|e] eqn:E0; [|discriminate].
    destruct (TDA_init_inv _ _ _ _ _ _ _ E0) as [-> _].
    unfold mbind in H.
    destruct (mapM (fun g => TDA_init pi cfg (fst g) (snd g)) gs s) as [[fits1 s1]|e] eqn:E1;
      [|discriminate].
    unfold mret in H; inversion H; subst fits s'.
    destruct (IH _ _ eq_refl) as (-> & Hl & Hn).
    split; [reflexivity|split; [simpl; congruence|]].
    intros [|i] g Hg; simpl in Hg.
    + inversion Hg; subst g. exists fit0; auto.
    + exact (Hn i g Hg).
Qed.

Definition default_grouping (grouping : option (list predicate)) : list predicate :=
  match grouping with None => [fun _ => true] | Some fns => fns end.

Lemma GTDA_init_inv pi cfg ts ds grouping s g s' :
  GTDA_init pi cfg ts ds grouping s = Ok (g, s') ->
  s' = s /\ grouping_functions g = default_grouping grouping /\
  length (group_fits g) = length (grouping_functions g) /\
  forall i, (i < length (grouping_functions g))%nat ->
    exists fit, nth_error (group_fits g) i = Some fit /\
      TDA_init pi cfg (filter (fun r => in_group (grouping_functions g) i (s r)) ts)
                      (filter (fun r => in_group (grouping_functions g) i (s r)) ds) s
        = Ok (fit, s).
Proof.
  unfold GTDA_init, partition. fold (default_grouping grouping).
  set (fns := default_grouping grouping).
  set (gs0 := map (fun _ : predicate => ([] : list ref, [] : list ref)) fns).
  assert (Hl0 : length gs0 = length fns) by (unfold gs0; apply length_map).
  unfold mbind at 1, mbind at 1.
  destruct (foldM _ ts gs0 s) as [[gs1 s1]|e] eqn:E1; [|discriminate].
  destruct (partition_pass fns true ts gs0 gs1 s s1 Hl0 E1) as (-> & Hl1 & Hn1).
  unfold mbind at 1.
  destruct (foldM _ ds gs1 s) as [[gs2 s2]|e] eqn:E2; [|discriminate].
  destruct (partition_pass fns false ds gs1 gs2 s s2 ltac:(congruence) E2) as (-> & Hl2 & Hn2).
  unfold mbind at 1.
  destruct (mapM _ gs2 s) as [[fits s3]|e] eqn:E3; [|discriminate].
  destruct (mapM_TDA_init _ _ _ _ _ _ E3) as (-> & Hl3 & Hn3).
  unfold mret, mbind; simpl. intros H; inversion H; subst g s'; clear H; simpl.
  split; [reflexivity|split; [reflexivity|split; [congruence|]]].
  intros i Hi.
  assert (H0 : nth_error gs0 i = Some ([], [])).
  { unfold gs0. rewrite nth_error_map.
    destruct (nth_error fns i) eqn:Ei; [reflexivity|].
    apply nth_error_None in Ei; lia. }
  specialize (Hn1 i _ H0). simpl in Hn1.
  specialize (Hn2 i _ Hn1). simpl in Hn2.
  exact (Hn3 i _ Hn2).
Qed.

(** C9 (first-match dispatch): for a constructed grouped analyzer and any
    item whose first matching grouping function (when scored) is the [i]-th,
    the [i]-th fitted analyzer is the [TargetDecoyAnalyzer] built from the
    targets and decoys whose first match at construction was [i], and the
    grouped [score] does exactly what [score] on that analyzer does: same
    q-value written, same store, same result. *)
Theorem c9_grouped_score_is_first_match_fit pi cfg ts ds grouping s g s' (r : ref) (s1 : store) i
  (H : GTDA_init pi cfg ts ds grouping s = Ok (g, s'))
  (Hi : first_match (grouping_functions g) (s1 r) = Some i) :
  exists fit,
    nth_error (group_fits g) i = Some fit /\
    TDA_init pi cfg (filter (fun r => in_group (grouping_functions g) i (s r)) ts)
                    (filter (fun r => in_group (grouping_functions g) i (s r)) ds) s
      = Ok (fit, s) /\
    gtda_score g r s1 = tda_score fit r s1.
Proof.
  destruct (GTDA_init_inv _ _ _ _ _ _ _ _ H) as (_ & _ & _ & Hn).
  destruct (Hn i (first_match_lt _ _ _ Hi)) as (fit & Hf & Ht).
  exists fit. split; [exact Hf|split; [exact Ht|]].
  cbv [gtda_score mbind find_group get_item mret lift]. rewrite Hi.
  rewrite py_index_nat, Hf. reflexivity.
Qed.

Lemma c9_grouped_score_is_first_match_fit_witness :
  match GTDA_init nb_mass_exact (cfg_of false 0 1 1) [0; 1]%nat [2%nat]
          (Some [fun it => f_lt (score it) (F 3); fun _ => true])
          (store_of [F 1; F 4; F 2]) with
  | Ok (g, _) =>
      first_match (grouping_functions g) (store_of [F 1; F 4; F 2] 2%nat) = Some 0%nat /\
      exists fit, nth_error (group_fits g) 0 = Some fit /\
        gtda_score g 2%nat (store_of [F 1; F 4; F 2]) = tda_score fit 2%nat (store_of [F 1; F 4; F 2])
  | Raise _ => False
  end.
Proof.
  destruct (GTDA_init nb_mass_exact (cfg_of false 0 1 1) [0; 1]%nat [2%nat]
              (Some [fun it => f_lt (score it) (F 3); fun _ => true])
              (store_of [F 1; F 4; F 2])) as [[g s']|e] eqn:H;
    [|cbv in H; discriminate].
  assert (Hi : first_match (grouping_functions g) (store_of [F 1; F 4; F 2] 2%nat) = Some 0%nat)
    by (rewrite (proj1 (proj2 (GTDA_init_inv _ _ _ _ _ _ _ _ H))); cbv; reflexivity).
  split; [exact Hi|].
  destruct (c9_grouped_score_is_first_match_fit _ _ _ _ _ _ _ _ _ _ _ H Hi) as (fit & Hf & _ & Hs).
  exists fit. split; [exact Hf|exact Hs].
Defined.

(** ** Frame of construction *)

Lemma TDA_init_scores_only pi cfg ts ds (s1 s2 : store) est :
  (forall r, score (s1 r) = score (s2 r)) ->
  TDA_init pi cfg ts ds s1 = Ok (est, s1) -> TDA_init pi cfg ts ds s2 = Ok (est, s2).
Proof.
  intros Hs. unfold TDA_init, mbind. rewrite !mapM_read_score.
  rewrite <- !(map_ext (fun r => score (s1 r)) (fun r => score (s2 r)) Hs).
  unfold lift. destruct (build_core _ _ _); [|discriminate].
  destruct (_calculate_q_values _ _); [|discriminate].
  unfold mret. intros H; inversion H; reflexivity.
Qed.

(** C10 (construction is read-only): building a [TargetDecoyAnalyzer] or a
    [GroupwiseTargetDecoyAnalyzer] returns the store it was given, so no
    item's [q_value] (nor anything else) is written; and a
    [TargetDecoyAnalyzer] reads only the items' scores: on a store that
    agrees on every score it builds the same analyzer. *)
Theorem c10_construction_writes_nothing pi cfg :
  (forall ts ds s est s', TDA_init pi cfg ts ds s = Ok (est, s') -> s' = s) /\
  (forall ts ds grouping s g s', GTDA_init pi cfg ts ds grouping s = Ok (g, s') -> s' = s) /\
  (forall ts ds (s1 s2 : store) est,
     (forall r, score (s1 r) = score (s2 r)) ->
     TDA_init pi cfg ts ds s1 = Ok (est, s1) -> TDA_init pi cfg ts ds s2 = Ok (est, s2)).
Proof.
  split; [|split].
  - intros ts ds s est s' H. exact (proj1 (TDA_init_inv _ _ _ _ _ _ _ H)).
  - intros ts ds grouping s g s' H. exact (proj1 (GTDA_init_inv _ _ _ _ _ _ _ _ H)).
  - exact (TDA_init_scores_only pi cfg).
Qed.

Lemma c10_construction_writes_nothing_witness :
  match TDA_init nb_mass_exact (cfg_of false 0 1 1) [0; 1]%nat [2%nat] (store_of [F 1; F 4; F 2]) with
  | Ok (_, s') => s' = store_of [F 1; F 4; F 2]
  | Raise _ => False
  end /\
  match GTDA_init nb_mass_exact (cfg_of false 0 1 1) [0; 1]%nat [2%nat] None
          (store_of [F 1; F 4; F 2]) with
  | Ok (_, s') => s' = store_of [F 1; F 4; F 2]
  | Raise _ => False
  end.
Proof.
  destruct (c10_construction_writes_nothing nb_mass_exact (cfg_of false 0 1 1)) as (Ht & Hg & _).
  split.
  - destruct (TDA_init nb_mass_exact (cfg_of false 0 1 1) [0; 1]%nat [2%nat]
                (store_of [F 1; F 4; F 2])) as [[est s']|e] eqn:H;
      [exact (Ht _ _ _ _ _ H)|cbv in H; discriminate].
  - destruct (GTDA_init nb_mass_exact (cfg_of false 0 1 1) [0; 1]%nat [2%nat] None
                (store_of [F 1; F 4; F 2])) as [[g s']|e] eqn:H;
      [exact (Hg _ _ _ _ _ _ H)|cbv in H; discriminate].
Defined.

(** ** Monotonicity of the calibration curve *)

(** ** Order on non-NaN scores *)

Lemma f_lt_irrefl a : f_lt a a = false.
Proof. destruct a; simpl; auto. apply Z.ltb_irrefl. Qed.

Lemma f_lt_asym a b : f_lt a b = true -> f_lt b a = false.
Proof.
  destruct a, b; simpl; auto; try discriminate.
  intros H; apply Z.ltb_lt in H; apply Z.ltb_ge; lia.
Qed.

Lemma f_lt_trans a b c : f_lt a b = true -> f_lt b c = true -> f_lt a c = true.
Proof.
  destruct a, b, c; simpl; auto; try discriminate.
  intros H1 H2; apply Z.ltb_lt in H1, H2; apply Z.ltb_lt; lia.
Qed.

Lemma f_lt_total a b :
  np_isnan a = false -> np_isnan b = false -> a <> b -> f_lt a b = true \/ f_lt b a = true.
Proof.
  destruct a, b; simpl; intros Ha Hb Hne; auto; try discriminate; try congruence.
  destruct (Z.lt_trichotomy z z0) as [H|[H|H]].
  - left; apply Z.ltb_lt; lia.
  - subst; congruence.
  - right; apply Z.ltb_lt; lia.
Qed.

Lemma f_eq_eq a b : f_eq a b = true -> a = b.
Proof.
  destruct a, b; simpl; intros H; try discriminate; auto.
  apply Z.eqb_eq in H; subst; reflexivity.
Qed.

Lemma f_eq_refl a : np_isnan a = false -> f_eq a a = true.
Proof. destruct a; simpl; auto. intros; apply Z.eqb_refl. Qed.

Lemma f_lt_not_nan a b : f_lt a b = true -> np_isnan a = false /\ np_isnan b = false.
Proof. destruct a, b; simpl; auto; discriminate. Qed.

Lemma f_lt_f_eq a b : f_lt a b = true -> f_eq a b = false.
Proof.
  intros H. destruct (f_eq a b) eqn:E; auto.
  apply f_eq_eq in E; subst. rewrite f_lt_irrefl in H; discriminate.
Qed.

(** ** Lookups in a strictly sorted index *)

Section Lookup.
Context {V : Type} (arr : list (fscore * V)).

Hypothesis Hstrict : forall i j a b, (i < j)%nat ->
  nth_error arr i = Some a -> nth_error arr j = Some b -> f_lt (fst a) (fst b) = true.
Hypothesis Hnan : forall i a, nth_error arr i = Some a -> np_isnan (fst a) = false.

Lemma key_index_unique i j a b :
  nth_error arr i = Some a -> nth_error arr j = Some b -> fst a = fst b -> i = j.
Proof.
  intros Ha Hb He. destruct (Nat.lt_trichotomy i j) as [Hl|[Hl|Hl]]; auto.
  - pose proof (Hstrict _ _ _ _ Hl Ha Hb) as H. rewrite He, f_lt_irrefl in H; discriminate.
  - pose proof (Hstrict _ _ _ _ Hl Hb Ha) as H. rewrite He, f_lt_irrefl in H; discriminate.
Qed.

Lemma py_index_in {A} (l : list A) (i : Z) :
  0 <= i < Z.of_nat (length l) ->
  exists a, nth_error l (Z.to_nat i) = Some a /\ py_index l i = Ok a.
Proof.
  intros Hi. unfold py_index.
  replace (i <? 0) with false by (symmetry; apply Z.ltb_ge; lia).
  replace ((0 <=? i) && (i <? Z.of_nat (length l))) with true
    by (symmetry; apply andb_true_iff; split; [apply Z.leb_le|apply Z.ltb_lt]; lia).
  destruct (nth_error l (Z.to_nat i)) as [a|] eqn:E.
  - exists a; auto.
  - apply nth_error_None in E; lia.
Qed.

Lemma fci_loop_found v m qm fuel lo hi :
  nth_error arr (Z.to_nat m) = Some (v, qm) ->
  0 <= lo <= m -> m <= hi < Z.of_nat (length arr) -> lo < hi ->
  hi - lo < Z.of_nat fuel ->
  exists i, fci_loop fuel arr v lo hi = Ok (Some i) /\ m - 1 <= i <= m /\ lo <= i.
Proof.
  intros Hm. revert lo hi; induction fuel as [|fuel IH]; intros lo hi Hlo Hhi Hlt Hf; [lia|].
  cbn [fci_loop].
  replace (hi - lo =? 0) with false by (symmetry; apply Z.eqb_neq; lia).
  assert (Hi : lo <= (hi + lo) / 2 < hi) by (split; [apply Z.div_le_lower_bound|apply Z.div_lt_upper_bound]; lia).
  set (i := (hi + lo) / 2) in *.
  destruct (py_index_in arr i ltac:(lia)) as ([x qx] & Hx & Hpx).
  rewrite Hpx. cbn [rbind fst].
  assert (Hvn : np_isnan v = false) by exact (Hnan _ _ Hm).
  assert (Hxn : np_isnan x = false) by exact (Hnan _ _ Hx).
  destruct (f_eq x v) eqn:Exv.
  { apply f_eq_eq in Exv; subst x.
    pose proof (key_index_unique _ _ _ _ Hx Hm eq_refl). exists i. split; [reflexivity|lia]. }
  destruct (hi - lo =? 1) eqn:E1.
  { apply Z.eqb_eq in E1. exists i. split; [reflexivity|].
    lia. }
  apply Z.eqb_neq in E1.
  assert (Hne : x <> v) by (intros ->; rewrite f_eq_refl in Exv; auto; discriminate).
  assert (Hi2 : lo + 1 <= i) by (unfold i; apply Z.div_le_lower_bound; lia).
  destruct (f_lt x v) eqn:Lxv.
  { assert (Him : i < m).
    { destruct (Z.lt_trichotomy i m) as [H|[H|H]]; auto.
      - subst i. rewrite H in Hx. rewrite Hx in Hm. inversion Hm; congruence.
      - pose proof (Hstrict (Z.to_nat m) (Z.to_nat i) _ _ ltac:(lia) Hm Hx) as H'.
        simpl in H'. rewrite (f_lt_asym _ _ H') in Lxv; discriminate. }
    destruct (IH i hi ltac:(lia) ltac:(lia) ltac:(lia) ltac:(lia)) as (i' & Hr & Hb).
    exists i'. split; [exact Hr|lia]. }
  destruct (f_lt v x) eqn:Lvx.
  { assert (Him : m < i).
    { destruct (Z.lt_trichotomy i m) as [H|[H|H]]; auto.
      - pose proof (Hstrict (Z.to_nat i) (Z.to_nat m) _ _ ltac:(lia) Hx Hm) as H'.
        simpl in H'. rewrite (f_lt_asym _ _ H') in Lvx; discriminate.
      - subst i. rewrite H in Hx. rewrite Hx in Hm. inversion Hm; congruence. }
    destruct (IH lo i ltac:(lia) ltac:(lia) ltac:(lia) ltac:(lia)) as (i' & Hr & Hb).
    exists i'. split; [exact Hr|lia]. }
  destruct (f_lt_total x v Hxn Hvn Hne) as [H|H]; congruence.
Qed.

Lemma find_closest_found v m qm :
  nth_error arr (Z.to_nat m) = Some (v, qm) -> 0 <= m ->
  exists i, _find_closest_item arr v = Ok (Some i) /\ m - 1 <= i <= m /\ 0 <= i.
Proof.
  intros Hm H0. unfold _find_closest_item.
  assert (Hlen : m < Z.of_nat (length arr))
    by (assert (Z.to_nat m < length arr)%nat by (apply nth_error_Some; congruence); lia).
  rewrite (Hnan _ _ Hm : np_isnan v = false).
  destruct (0 =? Z.of_nat (length arr) - 1) eqn:E.
  - apply Z.eqb_eq in E. exists 0. split; [reflexivity|lia].
  - apply Z.eqb_neq in E.
    apply (fci_loop_found v m qm); auto; lia.
Qed.

Lemma nvl_getitem_found (zero : V) v m qm :
  nth_error arr m = Some (v, qm) ->
  exists j k q, (m <= j <= S m)%nat /\ nth_error arr j = Some (k, q) /\
    nvl_getitem zero {| nvl_items := arr |} v = Ok q.
Proof.
  intros Hm. rewrite <- (Nat2Z.id m) in Hm.
  destruct (find_closest_found v (Z.of_nat m) qm Hm ltac:(lia)) as (i & Hf & Hb & H0).
  rewrite Nat2Z.id in Hm.
  assert (Hlen : (m < length arr)%nat) by (apply nth_error_Some; congruence).
  unfold nvl_getitem, nvl_len. cbn [nvl_items]. rewrite Hf. cbn [rbind].
  set (ix := if Z.of_nat (length arr) <=? i + 1 then Z.of_nat (length arr) - 1 else i + 1).
  assert (Hix : Z.of_nat m <= ix <= Z.of_nat m + 1 /\ ix < Z.of_nat (length arr)).
  { unfold ix. destruct (Z.of_nat (length arr) <=? i + 1) eqn:E;
      [apply Z.leb_le in E|apply Z.leb_gt in E]; lia. }
  destruct (py_index_in arr ix ltac:(lia)) as ([k q] & Hk & Hp).
  rewrite Hp. cbn [rbind fst snd].
  exists (Z.to_nat ix), k, q. split; [lia|split; [exact Hk|]].
  destruct (f_lt k v) eqn:L; [|reflexivity].
  exfalso. destruct (Nat.eq_dec (Z.to_nat ix) m) as [Heq|Hne].
  - rewrite Heq, Hm in Hk. inversion Hk; subst. rewrite f_lt_irrefl in L; discriminate.
  - pose proof (Hstrict m (Z.to_nat ix) _ _ ltac:(lia) Hm Hk) as H'. simpl in H'.
    rewrite (f_lt_asym _ _ H') in L; discriminate.
Qed.

End Lookup.

Lemma f_lt_f_eq' a b : f_lt a b = true -> f_eq b a = false.
Proof.
  intros H. destruct (f_eq b a) eqn:E; auto.
  apply f_eq_eq in E; subst. rewrite f_lt_irrefl in H; discriminate.
Qed.

Lemma py_set_add_props x s :
  NoDup s -> Forall nonnan s -> nonnan x ->
  NoDup (py_set_add x s) /\ Forall nonnan (py_set_add x s) /\
  (forall y, In y (py_set_add x s) <-> In y s \/ y = x).
Proof.
  intros Hd Hn Hx. unfold py_set_add.
  destruct (existsb (f_eq x) s) eqn:E.
  - apply existsb_exists in E. destruct E as (z & Hz & Ez). apply f_eq_eq in Ez; subst z.
    split; [exact Hd|split; [exact Hn|]]. intros y; split; [auto|intros [H | ->]; auto].
  - assert (Hni : ~ In x s).
    { intros Hin. assert (existsb (f_eq x) s = true) by (apply existsb_exists; exists x; split; auto; apply f_eq_refl; exact Hx). congruence. }
    split; [|split].
    + apply NoDup_app; [exact Hd|constructor; [auto|constructor]|].
      intros y Hy [<-|[]]. contradiction.
    + apply Forall_app; split; auto.
    + intros y. rewrite in_app_iff. simpl. intuition.
Qed.

Lemma py_set_union_props s l :
  NoDup s -> Forall nonnan s -> Forall nonnan l ->
  NoDup (py_set_union s l) /\ Forall nonnan (py_set_union s l) /\
  (forall y, In y (py_set_union s l) <-> In y s \/ In y l).
Proof.
  unfold py_set_union. revert s; induction l as [|x l IH]; intros s Hd Hn Hl; simpl.
  - split; [auto|split; [auto|intuition]].
  - inversion Hl; subst.
    destruct (py_set_add_props x s Hd Hn ltac:(assumption)) as (Hd' & Hn' & Hi').
    destruct (IH _ Hd' Hn' ltac:(assumption)) as (Hd'' & Hn'' & Hi'').
    split; [auto|split; [auto|]]. intros y. rewrite Hi'', Hi'. intuition.
Qed.

Lemma sort_insert_strict x l :
  StronglySorted flt l -> Forall nonnan l -> nonnan x -> ~ In x l ->
  StronglySorted flt (sort_insert (fun y => y) x l).
Proof.
  induction l as [|y l IH]; intros Hs Hn Hx Hni; simpl.
  - repeat constructor.
  - inversion Hs as [|? ? Hs' Hf]; subst. inversion Hn; subst.
    destruct (f_lt x y) eqn:L.
    + constructor; [exact Hs|]. constructor; [exact L|].
      eapply Forall_impl; [|exact Hf]. intros z Hz. exact (f_lt_trans _ _ _ L Hz).
    + assert (Lyx : f_lt y x = true).
      { destruct (f_lt_total x y) as [H|H]; auto; try congruence.
        intros ->; apply Hni; left; reflexivity. }
      constructor.
      * apply IH; auto. intros H; apply Hni; right; exact H.
      * apply Forall_forall. intros z Hz. apply In_sort_insert in Hz.
        destruct Hz as [-> | Hz]; [exact Lyx|].
        exact (proj1 (Forall_forall _ _) Hf z Hz).
Qed.

Lemma py_sorted_strict l :
  NoDup l -> Forall nonnan l -> StronglySorted flt (py_sorted (fun y => y) l).
Proof.
  unfold py_sorted.
  assert (G : forall acc, StronglySorted flt acc -> Forall nonnan acc ->
            NoDup l -> Forall nonnan l -> (forall x, In x l -> ~ In x acc) ->
            StronglySorted flt (fold_left (fun acc x => sort_insert (fun y => y) x acc) l acc)).
  { induction l as [|x l IH]; intros acc Hs Hn Hd Hl Hdis; simpl; auto.
    inversion Hd; subst. inversion Hl; subst.
    apply IH; auto.
    - apply sort_insert_strict; auto. apply Hdis; left; auto.
    - apply Forall_forall. intros z Hz. apply In_sort_insert in Hz.
      destruct Hz as [-> | Hz]; auto. exact (proj1 (Forall_forall _ _) Hn z Hz).
    - intros z Hz Hin. apply In_sort_insert in Hin. destruct Hin as [-> | Hin]; [contradiction|].
      exact (Hdis z (or_intror Hz) Hin). }
  intros Hd Hl. apply G; [constructor|constructor|auto|auto|intros x _ []].
Qed.

Lemma strict_nodup l : StronglySorted flt l -> NoDup l.
Proof.
  induction 1 as [|x l Hs IH Hf]; constructor; auto.
  intros Hin. pose proof (proj1 (Forall_forall _ _) Hf x Hin). unfold flt in H.
  rewrite f_lt_irrefl in H; discriminate.
Qed.

Lemma StronglySorted_app_rel {A} (R : A -> A -> Prop) l1 l2 a b :
  StronglySorted R (l1 ++ l2) -> In a l1 -> In b l2 -> R a b.
Proof.
  induction l1 as [|x l1 IH]; intros H Ha Hb; [destruct Ha|].
  simpl in H. inversion H as [|? ? Hs Hf]; subst.
  destruct Ha as [<-|Ha].
  - exact (proj1 (Forall_forall _ _) Hf b (in_or_app _ _ _ (or_intror Hb))).
  - exact (IH Hs Ha Hb).
Qed.

Lemma sort_insert_last {A} (key : A -> fscore) x l :
  Forall (fun y => f_lt (key y) (key x) = true) l -> sort_insert key x l = l ++ [x].
Proof.
  induction l as [|y l IH]; intros H; simpl; auto.
  inversion H; subst. rewrite (f_lt_asym _ _ H2). rewrite IH; auto.
Qed.

Lemma py_sorted_sorted {A} (key : A -> fscore) l :
  StronglySorted (fun a b => f_lt (key a) (key b) = true) l -> py_sorted key l = l.
Proof.
  unfold py_sorted.
  assert (G : forall acc, StronglySorted (fun a b => f_lt (key a) (key b) = true) (acc ++ l) ->
            fold_left (fun acc x => sort_insert key x acc) l acc = acc ++ l).
  { induction l as [|x l IH]; intros acc H; simpl; [rewrite app_nil_r; reflexivity|].
    rewrite sort_insert_last.
    - rewrite IH; [rewrite <- app_assoc; reflexivity|]. rewrite <- app_assoc; exact H.
    - apply Forall_forall. intros y Hy.
      exact (StronglySorted_app_rel _ _ _ _ _ H Hy (or_introl eq_refl)). }
  intros H. apply (G []). exact H.
Qed.

Lemma StronglySorted_nth {A} (R : A -> A -> Prop) l i j a b :
  StronglySorted R l -> (i < j)%nat -> nth_error l i = Some a -> nth_error l j = Some b -> R a b.
Proof.
  intros Hs. revert i j; induction Hs as [|x l Hs IH Hf]; intros i j Hij Ha Hb.
  - destruct i; discriminate.
  - destruct j as [|j]; [lia|]. destruct i as [|i]; simpl in Ha, Hb.
    + inversion Ha; subst. apply nth_error_In in Hb. exact (proj1 (Forall_forall _ _) Hf b Hb).
    + apply (IH i j); auto; lia.
Qed.

Lemma StronglySorted_snoc {A} (R : A -> A -> Prop) l y :
  StronglySorted R l -> Forall (fun a => R a y) l -> StronglySorted R (l ++ [y]).
Proof.
  induction 1 as [|x l Hs IH Hf]; intros Hy; simpl.
  - repeat constructor.
  - inversion Hy; subst. constructor; [apply IH; auto|].
    apply Forall_app; split; auto.
Qed.

Lemma py_index_no_zdiv {A} (l : list A) i : py_index l i <> Raise ZeroDivisionError.
Proof.
  unfold py_index. destruct (_ && _); [|discriminate].
  destruct (nth_error _ _); discriminate.
Qed.

Lemma fci_loop_no_zdiv {V} fuel (arr : list (fscore * V)) v lo hi :
  fci_loop fuel arr v lo hi <> Raise ZeroDivisionError.
Proof.
  revert lo hi; induction fuel as [|fuel IH]; intros lo hi; simpl; [discriminate|].
  destruct (hi - lo =? 0); [discriminate|].
  pose proof (py_index_no_zdiv arr ((hi + lo) / 2)) as Hp.
  destruct (py_index arr ((hi + lo) / 2)) as [cell|e]; cbn [rbind]; [|congruence].
  destruct (f_eq _ _); [discriminate|]. destruct (_ =? 1); [discriminate|].
  destruct (f_lt _ _); [apply IH|]. destruct (f_lt _ _); apply IH.
Qed.

Lemma nvl_getitem_no_zdiv {V} (zero : V) t k : nvl_getitem zero t k <> Raise ZeroDivisionError.
Proof.
  unfold nvl_getitem, _find_closest_item.
  destruct (np_isnan k); [|destruct (0 =? _)].
  1,2: cbn [rbind]; pose proof (py_index_no_zdiv (nvl_items t) (if nvl_len t <=? 0 + 1 then nvl_len t - 1 else 0 + 1)) as Hp;
       destruct (py_index _ _); cbn [rbind]; [destruct (f_lt _ _); discriminate|congruence].
  pose proof (fci_loop_no_zdiv (S (length (nvl_items t))) (nvl_items t) k 0 (Z.of_nat (length (nvl_items t)) - 1)) as Hf.
  destruct (fci_loop _ _ _ _ _) as [[i|]|e]; cbn [rbind]; [|discriminate|congruence].
  pose proof (py_index_no_zdiv (nvl_items t) (if nvl_len t <=? i + 1 then nvl_len t - 1 else i + 1)) as Hp.
  destruct (py_index _ _); cbn [rbind]; [destruct (f_lt _ _); discriminate|congruence].
Qed.

Lemma count_at_no_zdiv tbl k : count_at tbl k <> Raise ZeroDivisionError.
Proof.
  unfold count_at. destruct tbl as [t|]; [|discriminate].
  pose proof (nvl_getitem_no_zdiv 0 t k) as H.
  destruct (nvl_getitem 0 t k) as [v|[]]; try discriminate; try congruence.
  destruct (nvl_len t =? 0); discriminate.
Qed.

(** Without PIT and with no decoy correction, the FDR of a threshold is a
    Python float, or an exception other than [ZeroDivisionError]. *)
Lemma fdr_plain pi c x :
  with_pit (tda_cfg c) = false -> (decoy_correction (tda_cfg c) == 0)%Q ->
  match fdr_with_percent_incorrect_targets pi c x with
  | Ok (PyN _) => True
  | Ok (NpN _) => False
  | Raise e => e <> ZeroDivisionError
  end.
Proof.
  intros Hp Hdc. unfold fdr_with_percent_incorrect_targets. rewrite Hp. cbn [rbind].
  unfold target_decoy_ratio, n_decoys_above_threshold, n_targets_above_threshold.
  replace (Qeq_bool (decoy_correction (tda_cfg c)) 0) with true
    by (symmetry; apply Qeq_bool_iff; exact Hdc).
  pose proof (count_at_no_zdiv (n_decoys_at c) x) as H1.
  pose proof (count_at_no_zdiv (n_targets_at c) x) as H2.
  destruct (count_at (n_decoys_at c) x) as [[d|]|e]; cbn [rbind];
    [| |intros ->; exact (H1 eq_refl)];
  (destruct (count_at (n_targets_at c) x) as [[t|]|e]; cbn [rbind];
    [| |intros ->; exact (H2 eq_refl)]);
  cbn [py_add py_div_float];
  match goal with |- context [if ?b then _ else _] => destruct b end; cbn [rbind py_mul]; exact I.
Qed.

Lemma dict_set_new {V} k (v : V) d :
  Forall (fun a => f_eq k (fst a) = false) d -> dict_set k v d = d ++ [(k, v)].
Proof.
  induction d as [|[k' v'] d IH]; intros H; simpl; auto.
  inversion H; subst. simpl in H2. rewrite H2, IH; auto.
Qed.

Lemma fold_q_value_step_raise pi c L e :
  fold_left (q_value_step pi c) L (Raise e) = Raise e.
Proof. induction L; simpl; auto. Qed.

Lemma q_value_fold pi c L : forall st st',
  StronglySorted flt L ->
  (forall x, In x L -> match fdr_with_percent_incorrect_targets pi c x with
                       | Ok (PyN _) => True | Ok (NpN _) => False
                       | Raise e => e <> ZeroDivisionError end) ->
  Forall (fun a => exists q, snd a = PyN q) (mapping st) ->
  StronglySorted curve_rel (mapping st) ->
  (exists lq, last_q_value st = PyN lq /\
     (mapping st <> [] ->
        Forall (fun a => exists qa, snd a = PyN qa /\ (lq <= qa)%Q) (mapping st) /\
        forall x, In x L -> f_lt (last_score st) x = true)) ->
  Forall (fun a => forall x, In x L -> f_lt (fst a) x = true) (mapping st) ->
  fold_left (q_value_step pi c) L (Ok st) = Ok st' ->
  Forall (fun a => exists q, snd a = PyN q) (mapping st') /\
  StronglySorted curve_rel (mapping st') /\
  map fst (mapping st') = map fst (mapping st) ++ L.
Proof.
  induction L as [|x L IH]; intros st st' HL Hf Hp Hs (lq & Hlq & Hne) Hk H.
  - simpl in H; inversion H; subst. rewrite app_nil_r; auto.
  - cbn [fold_left] in H. inversion HL as [|? ? HL' HLf]; subst.
    unfold q_value_step at 2 in H. cbn [rbind] in H.
    specialize (Hf x (or_introl eq_refl)) as Hx.
    destruct (fdr_with_percent_incorrect_targets pi c x) as [[raw|np]|e] eqn:Efdr;
      [|contradiction|destruct e; cbn iota in H;
        try (rewrite fold_q_value_step_raise in H; discriminate); contradiction].
    rewrite Hlq in H. cbn [py_lt np_of np_lt] in H.
    set (qn := if Qltb lq raw && f_lt (last_score st) x then lq else raw) in H.
    assert (Hqn : mapping st <> [] -> (qn <= lq)%Q).
    { intros Hm. destruct (Hne Hm) as [_ Hls]. unfold qn.
      rewrite (Hls x (or_introl eq_refl)), andb_true_r.
      destruct (Qltb lq raw) eqn:E; [apply Qle_refl|].
      unfold Qltb in E. apply negb_false_iff, Qle_bool_iff in E. exact E. }
    replace (if Qltb lq raw && f_lt (last_score st) x then PyN lq else PyN raw) with (PyN qn) in H
      by (unfold qn; destruct (_ && _); reflexivity).
    rewrite dict_set_new in H.
    2:{ eapply Forall_impl; [|exact Hk]. intros a Ha. apply f_lt_f_eq'. apply Ha; left; auto. }
    set (st1 := {| mapping := mapping st ++ [(x, PyN qn)]; last_score := x; last_q_value := PyN qn |}) in H.
    destruct (IH st1 st' HL' (fun y Hy => Hf y (or_intror Hy))) as (Hp' & Hs' & Hm'); auto.
    + apply Forall_app; split; [exact Hp|repeat constructor; eexists; reflexivity].
    + apply StronglySorted_snoc; [exact Hs|].
      apply Forall_forall. intros a Ha.
      assert (Hm : mapping st <> []) by (intros E; rewrite E in Ha; destruct Ha).
      destruct (Hne Hm) as [Hb _].
      destruct (proj1 (Forall_forall _ _) Hb a Ha) as (qa & Eqa & Hle).
      split; [apply (proj1 (Forall_forall _ _) Hk a Ha); left; reflexivity|].
      exists qa, qn. split; [exact Eqa|split; [reflexivity|]].
      exact (Qle_trans _ _ _ (Hqn Hm) Hle).
    + exists qn. split; [reflexivity|]. intros _. split.
      * apply Forall_app. split.
        -- destruct (mapping st) as [|a0 m0] eqn:Em; [constructor|].
           assert (Hm : a0 :: m0 <> []) by discriminate.
           destruct (Hne Hm) as [Hb _].
           eapply Forall_impl; [|exact Hb]. intros a (qa & Eqa & Hle).
           exists qa. split; [exact Eqa|exact (Qle_trans _ _ _ (Hqn Hm) Hle)].
        -- repeat constructor. exists qn. split; [reflexivity|apply Qle_refl].
      * intros y Hy. exact (proj1 (Forall_forall _ _) HLf y Hy).
    + apply Forall_app. split.
      * eapply Forall_impl; [|exact Hk]. intros a Ha y Hy. apply Ha; right; exact Hy.
      * repeat constructor. intros y Hy. exact (proj1 (Forall_forall _ _) HLf y Hy).
    + split; [exact Hp'|split; [exact Hs'|]].
      rewrite Hm'. simpl. rewrite map_app, <- app_assoc. reflexivity.
Qed.

Lemma build_core_cfg cfg ts ds c : build_core cfg ts ds = Ok c -> tda_cfg c = cfg.
Proof.
  unfold build_core. intros H.
  destruct (0 <? _); [|inversion H; reflexivity].
  destruct (STC_init ts _); [|discriminate].
  destruct (STC_init ds _); [|discriminate].
  inversion H; reflexivity.
Qed.

Lemma filter_all {A} (f : A -> bool) l : Forall (fun a => f a = true) l -> filter f l = l.
Proof. induction 1; simpl; auto. rewrite H, IHForall; reflexivity. Qed.

Lemma StronglySorted_impl' {A} (R S : A -> A -> Prop) l :
  (forall a b, R a b -> S a b) -> StronglySorted R l -> StronglySorted S l.
Proof.
  intros HRS; induction 1; constructor; auto.
  eapply Forall_impl; [|eassumption]. auto.
Qed.

(** The thresholds of a NaN-free construction: strictly sorted, and exactly
    the observed scores. *)
Lemma thresholds_strict cfg tsc dsc c :
  Forall nonnan tsc -> Forall nonnan dsc -> build_core cfg tsc dsc = Ok c ->
  StronglySorted flt (thresholds c) /\ Forall nonnan (thresholds c) /\
  (forall x, In x (tsc ++ dsc) -> In x (thresholds c)).
Proof.
  intros Ht Hd Hc. rewrite (build_core_thresholds _ _ _ _ Hc).
  destruct (py_set_union_props [] tsc (NoDup_nil _) (Forall_nil _) Ht) as (Hd1 & Hn1 & Hi1).
  destruct (py_set_union_props [] dsc (NoDup_nil _) (Forall_nil _) Hd) as (Hd3 & Hn3 & Hi3).
  fold (py_set tsc) in Hd1, Hn1, Hi1. fold (py_set dsc) in Hd3, Hn3, Hi3.
  destruct (py_set_union_props _ _ Hd1 Hn1 Hn3) as (Hd2 & Hn2 & Hi2).
  split; [apply py_sorted_strict; auto|split].
  - apply Forall_forall. intros x Hx. apply In_py_sorted in Hx.
    exact (proj1 (Forall_forall _ _) Hn2 x Hx).
  - intros x Hx. apply In_py_sorted. rewrite Hi2, Hi1, Hi3.
    apply in_app_or in Hx. destruct Hx as [Hx|Hx]; [left|right]; right; exact Hx.
Qed.

(** ** Non-negativity of the q-values *)

Lemma dict_set_Forall {V} (P : fscore * V -> Prop) k v d :
  Forall P d -> P (k, v) -> Forall P (dict_set k v d).
Proof.
  induction d as [|[k' v'] d IH]; intros Hd Hkv; simpl; [constructor; auto|].
  inversion Hd; subst. destruct (f_eq k k'); constructor; auto.
Qed.

Lemma NVL_init_Forall {V} (P : fscore * V -> Prop) d :
  Forall P d -> Forall P (nvl_items (NVL_init d)).
Proof.
  intros Hd. apply Forall_forall. intros a Ha. simpl in Ha.
  apply In_py_sorted, filter_In in Ha. exact (proj1 (Forall_forall _ _) Hd a (proj1 Ha)).
Qed.

Lemma length_sort_insert {A} (key : A -> fscore) x l :
  length (sort_insert key x l) = S (length l).
Proof. induction l as [|y l IH]; simpl; auto. destruct (f_lt _ _); simpl; auto. Qed.

Lemma length_py_sorted {A} (key : A -> fscore) l : length (py_sorted key l) = length l.
Proof.
  unfold py_sorted.
  assert (G : forall acc, length (fold_left (fun acc x => sort_insert key x acc) l acc)
                          = (length l + length acc)%nat).
  { induction l as [|x l IH]; intros acc; simpl; auto.
    rewrite IH, length_sort_insert. lia. }
  rewrite G. simpl. lia.
Qed.

(** ** Bounds on the counts of [ScoreThresholdCounter] *)

Lemma counts_within_count st : counts_within st -> counts_within (count_item st).
Proof.
  intros [H0 Hf]. split; simpl; [lia|].
  eapply Forall_impl; [|exact Hf]. simpl; intros a Ha; lia.
Qed.

Lemma advance_loop_within x rest st :
  counts_within st ->
  counts_within (advance_loop x rest st) /\
  current_count st <= current_count (advance_loop x rest st) <= current_count st + 1.
Proof.
  revert st; induction rest as [|t rest IH]; intros st Hw; simpl.
  - split; [exact Hw|lia].
  - destruct Hw as [H0 Hf].
    assert (Hw' : counts_within {| counter := dict_set t (current_count st) (counter st);
                                   threshold_index := S (threshold_index st);
                                   current_threshold := t; current_count := current_count st;
                                   stc_i := stc_i st; is_done := is_done st |}).
    { split; simpl; [lia|]. apply dict_set_Forall; [exact Hf|simpl; lia]. }
    destruct (f_lt t x).
    + exact (IH _ Hw').
    + split; [apply counts_within_count, Hw'|simpl; lia].
Qed.

Lemma find_counts_within ths l st :
  counts_within st ->
  counts_within (find_counts ths l st) /\
  current_count (find_counts ths l st) <= current_count st + Z.of_nat (length l).
Proof.
  unfold find_counts. revert st; induction l as [|x l IH]; intros st Hw; simpl; [split; [auto|lia]|].
  assert (Hs : counts_within (stc_test ths x st) /\
               current_count (stc_test ths x st) <= current_count st + 1).
  { unfold stc_test. destruct (f_lt x (current_threshold st)).
    - split; [apply counts_within_count, Hw|simpl; lia].
    - destruct (advance_loop_within x (skipn (S (threshold_index st)) ths) st Hw) as [H1 H2].
      split; [exact H1|lia]. }
  destruct Hs as [Hs1 Hs2]. destruct (IH _ Hs1) as [H1 H2]. split; [exact H1|lia].
Qed.

Lemma compute_complement_within n c :
  Forall (fun kv => 0 <= snd kv <= n) c ->
  Forall (fun kv => 0 <= snd kv <= n) (nvl_items (compute_complement n c)).
Proof.
  intros Hc. unfold compute_complement. apply NVL_init_Forall.
  assert (G : forall acc, Forall (fun kv => 0 <= snd kv <= n) acc ->
            Forall (fun kv => 0 <= snd kv <= n)
              (fold_left (fun acc kv => dict_set (fst kv) (n - snd kv) acc) c acc)).
  { induction Hc as [|kv c Hkv Hc IH]; intros acc Hacc; simpl; auto.
    apply IH. apply dict_set_Forall; [exact Hacc|simpl; lia]. }
  apply G; constructor.
Qed.

Lemma STC_init_within series ths st :
  STC_init series ths = Ok st ->
  Forall (fun kv => 0 <= snd kv <= Z.of_nat (length series)) (nvl_items (counts_above_threshold st)).
Proof.
  unfold STC_init. destruct (py_index _ 0) as [t0|e]; cbn [rbind]; [|discriminate].
  intros H; inversion H; subst; clear H. cbn [counts_above_threshold].
  rewrite length_py_sorted.
  set (st0 := {| counter := []; threshold_index := 0; current_threshold := t0;
                 current_count := 0; stc_i := 0; is_done := false |}).
  assert (Hw0 : counts_within st0) by (split; simpl; [lia|constructor]).
  destruct (find_counts_within (py_sorted (fun x => x) (py_set (map np_round10 ths)))
              (py_sorted (fun x => x) series) st0 Hw0) as ([H0 Hf] & Hc).
  rewrite length_py_sorted in Hc. simpl in Hc.
  apply compute_complement_within.
  eapply Forall_impl; [|exact Hf]. simpl; intros a Ha; lia.
Qed.

Lemma build_core_within cfg tsc dsc c :
  build_core cfg tsc dsc = Ok c ->
  tda_cfg c = cfg /\ 0 <= target_count c /\ 0 <= decoy_count c /\
  table_within (n_targets_at c) (target_count c) /\ table_within (n_decoys_at c) (decoy_count c).
Proof.
  unfold build_core. intros H.
  destruct (0 <? _).
  - destruct (STC_init tsc _) as [st|e] eqn:Et; cbn [rbind] in H; [|discriminate].
    destruct (STC_init dsc _) as [sd|e] eqn:Ed; cbn [rbind] in H; [|discriminate].
    inversion H; subst; clear H; simpl.
    split; [reflexivity|split; [lia|split; [lia|split]]];
      intros t Ht; inversion Ht; subst; eapply STC_init_within; eassumption.
  - inversion H; subst; simpl.
    split; [reflexivity|split; [lia|split; [lia|split]]]; intros t Ht; discriminate.
Qed.

Lemma nvl_getitem_value {V} (zero : V) t k v :
  nvl_getitem zero t k = Ok v -> v = zero \/ exists key, In (key, v) (nvl_items t).
Proof.
  unfold nvl_getitem. destruct (_find_closest_item _ _) as [[ix|]|e]; cbn [rbind]; try discriminate.
  unfold py_index.
  destruct (_ && _); [|discriminate].
  destruct (nth_error _ _) as [[key w]|] eqn:E; cbn [rbind]; [|discriminate].
  destruct (f_lt _ _); intros H; inversion H; subst; [left; reflexivity|].
  right. exists key. eapply nth_error_In; exact E.
Qed.

Lemma count_at_within tbl n k o :
  0 <= n -> table_within tbl n -> count_at tbl k = Ok o ->
  match o with Some v => 0 <= v <= n | None => True end.
Proof.
  unfold count_at. intros Hn Hw. destruct tbl as [t|]; [|discriminate].
  destruct (nvl_getitem 0 t k) as [v|e] eqn:E.
  - intros H; inversion H; subst.
    destruct (nvl_getitem_value _ _ _ _ E) as [->|(key & Hin)]; [lia|].
    exact (proj1 (Forall_forall _ _) (Hw t eq_refl) _ Hin).
  - destruct e; try discriminate. destruct (nvl_len t =? 0); intros H; inversion H; auto.
Qed.

Lemma Q_of_Z_nonneg z : 0 <= z -> (0 <= inject_Z z)%Q.
Proof. intros H. change (inject_Z 0 <= inject_Z z)%Q. rewrite <- Zle_Qle. exact H. Qed.

Section Nonneg.
Variable pi : Q -> Z -> Q -> Q.
Variable c : tda_core.
Hypothesis Hdc : (decoy_correction (tda_cfg c) == 0)%Q.
Hypothesis Hratio : (0 <= database_ratio (tda_cfg c))%Q.
Hypothesis Hweight : (0 <= target_weight (tda_cfg c))%Q.
Hypothesis Htc : 0 <= target_count c.
Hypothesis Hdcnt : 0 <= decoy_count c.
Hypothesis Htt : table_within (n_targets_at c) (target_count c).
Hypothesis Htd : table_within (n_decoys_at c) (decoy_count c).

Lemma n_targets_within x ta :
  n_targets_above_threshold c x = Ok ta -> 0 <= ta <= target_count c.
Proof.
  unfold n_targets_above_threshold.
  destruct (count_at (n_targets_at c) x) as [o|e] eqn:E; cbn [rbind]; [|discriminate].
  pose proof (count_at_within _ _ _ _ Htc Htt E) as Ho.
  destruct o; intros H; inversion H; subst; lia.
Qed.

Lemma n_decoys_within x da :
  n_decoys_above_threshold c x = Ok da -> (0 <= da /\ da <= inject_Z (decoy_count c))%Q.
Proof.
  unfold n_decoys_above_threshold.
  destruct (count_at (n_decoys_at c) x) as [o|e] eqn:E; cbn [rbind]; [|discriminate].
  pose proof (count_at_within _ _ _ _ Hdcnt Htd E) as Ho.
  destruct o as [v|]; intros H; inversion H; subst; clear H.
  - rewrite Hdc, Qplus_0_r. split; [apply Q_of_Z_nonneg; lia|rewrite <- Zle_Qle; lia].
  - rewrite Hdc. split; [apply Qle_refl|apply Q_of_Z_nonneg; exact Hdcnt].
Qed.

Lemma target_decoy_ratio_nonneg x r ta da :
  target_decoy_ratio pi c x = Ok (r, ta, da) -> exists q, r = PyN q /\ (0 <= q)%Q.
Proof.
  unfold target_decoy_ratio.
  destruct (n_decoys_above_threshold c x) as [d|e] eqn:Ed; cbn [rbind]; [|discriminate].
  destruct (n_targets_above_threshold c x) as [t|e] eqn:Et; cbn [rbind]; [|discriminate].
  destruct (n_decoys_within _ _ Ed) as [Hd0 _].
  pose proof (n_targets_within _ _ Et) as Ht0.
  replace (Qeq_bool (decoy_correction (tda_cfg c)) 0) with true
    by (symmetry; apply Qeq_bool_iff; exact Hdc).
  cbn [py_add py_div_float].
  assert (Hn : (0 <= d + 0)%Q) by (rewrite Qplus_0_r; exact Hd0).
  destruct (Qeq_bool _ 0) eqn:Ez; cbn [rbind]; intros H; inversion H; subst; clear H.
  - eexists; split; [reflexivity|exact Hn].
  - eexists; split; [reflexivity|]. unfold Qdiv. apply Qmult_le_0_compat; [exact Hn|].
    apply Qinv_le_0_compat. apply Qmult_le_0_compat; [apply Qmult_le_0_compat|].
    + apply Q_of_Z_nonneg; lia.
    + exact Hratio.
    + exact Hweight.
Qed.

Lemma fdr_nonneg x v :
  fdr_with_percent_incorrect_targets pi c x = Ok v -> exists q, v = PyN q /\ (0 <= q)%Q.
Proof.
  unfold fdr_with_percent_incorrect_targets.
  assert (Hpit : forall p, (if with_pit (tda_cfg c) then estimate_percent_incorrect_targets c x
                            else Ok 1%Q) = Ok p -> (0 <= p)%Q).
  { intros p. destruct (with_pit (tda_cfg c)).
    - unfold estimate_percent_incorrect_targets.
      destruct (n_targets_above_threshold c x) as [t|e] eqn:Et; cbn [rbind]; [|discriminate].
      destruct (n_decoys_above_threshold c x) as [d|e] eqn:Ed; cbn [rbind]; [|discriminate].
      pose proof (n_targets_within _ _ Et) as Ht0.
      destruct (n_decoys_within _ _ Ed) as [_ Hd1].
      destruct (Qeq_bool _ 0); intros H; inversion H; subst; clear H.
      unfold Qdiv. apply Qmult_le_0_compat; [apply Q_of_Z_nonneg; lia|].
      apply Qinv_le_0_compat. apply Qle_minus_iff in Hd1. exact Hd1.
    - intros H; inversion H; subst. discriminate. }
  destruct (if with_pit (tda_cfg c) then _ else _) as [p|e] eqn:Ep; cbn [rbind]; [|discriminate].
  specialize (Hpit p eq_refl).
  destruct (target_decoy_ratio pi c x) as [[[r ta] da]|e] eqn:Er; cbn [rbind]; [|discriminate].
  destruct (target_decoy_ratio_nonneg _ _ _ _ Er) as (q & -> & Hq).
  intros H; inversion H; subst. cbn [py_mul]. eexists; split; [reflexivity|].
  apply Qmult_le_0_compat; assumption.
Qed.

End Nonneg.

Lemma q_value_fold_nonneg pi c L : forall st st',
  (forall x v, fdr_with_percent_incorrect_targets pi c x = Ok v -> exists q, v = PyN q /\ (0 <= q)%Q) ->
  Forall (fun a => exists q, snd a = PyN q /\ (0 <= q)%Q) (mapping st) ->
  (exists q, last_q_value st = PyN q /\ (0 <= q)%Q) ->
  fold_left (q_value_step pi c) L (Ok st) = Ok st' ->
  Forall (fun a => exists q, snd a = PyN q /\ (0 <= q)%Q) (mapping st').
Proof.
  induction L as [|x L IH]; intros st st' Hf Hm (lq & Hlq & Hlq0) H.
  - simpl in H; inversion H; subst; exact Hm.
  - cbn [fold_left] in H. unfold q_value_step at 2 in H. cbn [rbind] in H.
    destruct (fdr_with_percent_incorrect_targets pi c x) as [v|e] eqn:E.
    + destruct (Hf _ _ E) as (q & -> & Hq). rewrite Hlq in H.
      set (qn := if py_lt (PyN lq) (PyN q) && f_lt (last_score st) x then PyN lq else PyN q) in H.
      assert (Hqn : exists q', qn = PyN q' /\ (0 <= q')%Q)
        by (unfold qn; destruct (_ && _); eexists; split; eauto).
      apply (IH _ _ Hf) in H; auto.
      apply dict_set_Forall; auto.
    + destruct e; cbn iota in H; try (rewrite fold_q_value_step_raise in H; discriminate).
      apply (IH _ _ Hf) in H; auto.
      * apply dict_set_Forall; auto. exists 1%Q. split; [reflexivity|discriminate].
      * exists lq; auto.
Qed.

Lemma iterM_cons {A} (f : A -> M unit) x l s :
  iterM f (x :: l) s = match f x s with Ok (_, s') => iterM f l s' | Raise e => Raise e end.
Proof. reflexivity. Qed.

Lemma set_step (m : NearestValueLookUp pynum) r0 s :
  (x <- read_score r0;; q <- lift (q_value_of m x);; set_q_value r0 q) s =
  match q_value_of m (score (s r0)) with
  | Ok q => Ok (tt, fun r' => if Nat.eqb r' r0 then {| score := score (s r0); q_value := q |} else s r')
  | Raise e => Raise e
  end.
Proof. cbv [read_score get_item mbind mret lift set_q_value]. destruct (q_value_of m _); reflexivity. Qed.

Lemma iterM_set_nonneg (m : NearestValueLookUp pynum) l : forall s s2 u,
  (forall x v, q_value_of m x = Ok v -> exists q, v = PyN q /\ (0 <= q)%Q) ->
  iterM (fun r => x <- read_score r;; q <- lift (q_value_of m x);; set_q_value r q) l s = Ok (u, s2) ->
  forall r, (In r l \/ exists q, q_value (s r) = PyN q /\ (0 <= q)%Q) ->
  exists q, q_value (s2 r) = PyN q /\ (0 <= q)%Q.
Proof.
  induction l as [|r0 l IH]; intros s s2 u Hm H r Hr.
  - simpl in H; inversion H; subst. destruct Hr as [[]|Hr]; exact Hr.
  - rewrite iterM_cons, set_step in H.
    destruct (q_value_of m (score (s r0))) as [v|e] eqn:E; [|discriminate].
    destruct (Hm _ _ E) as (q & -> & Hq).
    eapply IH; [exact Hm|exact H|].
    destruct Hr as [[<-|Hr]|Hr]; [right|left; exact Hr|right].
    + rewrite Nat.eqb_refl. exists q; auto.
    + destruct (Nat.eqb r r0); [exists q; auto|exact Hr].
Qed.

(** C1 (code_bug, the PIT path of [_calculate_q_values]): with
    [with_pit=True], targets scored [2; 1] and decoys scored [4; 3; 3], the
    PIT estimate divides by [decoy_count - decoys_at = 0] at thresholds 1
    and 2; the [except ZeroDivisionError] branch stores 1.0 there without
    updating [last_q_value] and [last_score], so the ratio 2.0 of threshold
    3 is not smoothed down, and [q_value_of(1) = 1 < 2 = q_value_of(2)]. *)
Lemma c1_curve_increases :
  exists est s',
    TDA_init nb_mass_exact (cfg_of true 0 1 1) [0; 1]%nat [2; 3; 4]%nat
      (store_of [F 2; F 1; F 4; F 3; F 3]) = Ok (est, s') /\
    estimate_percent_incorrect_targets (tda_fields est) (F 1) = Raise ZeroDivisionError /\
    estimate_percent_incorrect_targets (tda_fields est) (F 2) = Raise ZeroDivisionError /\
    nvl_items (_q_value_map est) =
      [(F 1, PyN 1); (F 2, PyN 1); (F 3, PyN 2); (F 4, PyN 2)] /\
    q_value_of (_q_value_map est) (F 1) = Ok (PyN 1) /\
    q_value_of (_q_value_map est) (F 2) = Ok (PyN 2).
Proof.
  do 2 eexists. split; [cbv; reflexivity|]. vm_compute.
  repeat split; reflexivity.
Qed.

(** C3 (counterexample): q-values are not bounded by 1, already with the
    default configuration, and they can be negative when one of the
    hypotheses of the amended claim fails.  Targets [1], decoys [2; 2]:
    - default configuration: at threshold 1 one target and two decoys are
      counted, the ratio is 2, [q_value_of(1)] is 2, and [q_values()]
      writes 2 into the target's [q_value];
    - [database_ratio = -1] or [target_weight = -1]: the divisor
      [targets_at * database_ratio * target_weight] is negative and
      [q_value_of(1)] is -2;
    - [decoy_correction = -25]: the decoy counts [count - 25] are below -20,
      [_expectation] raises [IndexError] in [log_factorial] (whatever the
      probability mass), the correction stays 0, and [q_value_of(1)] is
      -23. *)
Lemma c3_q_value_out_of_range :
  (exists est s' s3,
     TDA_init nb_mass_exact (cfg_of false 0 1 1) [0%nat] [1; 2]%nat
       (store_of [F 1; F 2; F 2]) = Ok (est, s') /\
     q_value_of (_q_value_map est) (F 1) = Ok (PyN 2) /\
     tda_q_values est s' = Ok (tt, s3) /\ q_value (s3 0%nat) = PyN 2) /\
  (exists est s',
     TDA_init nb_mass_exact (cfg_of false 0 (-1) 1) [0%nat] [1; 2]%nat
       (store_of [F 1; F 2; F 2]) = Ok (est, s') /\
     q_value_of (_q_value_map est) (F 1) = Ok (PyN (-2))) /\
  (exists est s',
     TDA_init nb_mass_exact (cfg_of false 0 1 (-1)) [0%nat] [1; 2]%nat
       (store_of [F 1; F 2; F 2]) = Ok (est, s') /\
     q_value_of (_q_value_map est) (F 1) = Ok (PyN (-2))) /\
  (forall pi : Q -> Z -> Q -> Q, exists est s',
     TDA_init pi (cfg_of false (-25) 1 1) [0%nat] [1; 2]%nat
       (store_of [F 1; F 2; F 2]) = Ok (est, s') /\
     q_value_of (_q_value_map est) (F 1) = Ok (PyN (-23))).
Proof.
  split; [|split; [|split]].
  - do 3 eexists. split; [cbv; reflexivity|].
    split; [vm_compute; reflexivity|]. split; [cbv; reflexivity|]. vm_compute; reflexivity.
  - do 2 eexists. split; [vm_compute; reflexivity|]. vm_compute; reflexivity.
  - do 2 eexists. split; [vm_compute; reflexivity|]. vm_compute; reflexivity.
  - intros pi. do 2 eexists. split; [vm_compute; reflexivity|]. vm_compute; reflexivity.
Qed.

(** C3 (amended): with [decoy_correction = 0], [database_ratio >= 0] and
    [target_weight >= 0] (PIT on or off), every [q_value_of] lookup that
    returns gives a Python float [>= 0], and after [q_values()] every target
    and decoy carries such a q-value; there is no upper bound of 1. *)
Theorem c3_q_values_nonnegative pi cfg ts ds s est s'
  (Hdc : (decoy_correction cfg == 0)%Q) (Hr : (0 <= database_ratio cfg)%Q)
  (Hw : (0 <= target_weight cfg)%Q)
  (H : TDA_init pi cfg ts ds s = Ok (est, s')) :
  (forall x v, q_value_of (_q_value_map est) x = Ok v -> exists q, v = PyN q /\ (0 <= q)%Q) /\
  (forall s2 u s3, tda_q_values est s2 = Ok (u, s3) ->
     forall r, In r (ts ++ ds) -> exists q, q_value (s3 r) = PyN q /\ (0 <= q)%Q).
Proof.
  destruct (TDA_init_inv _ _ _ _ _ _ _ H) as (_ & Ht & Hd & Hc & Hm).
  destruct (build_core_within _ _ _ _ Hc) as (Hcfg & Htc & Hdcnt & Htt & Htd).
  assert (Hq : forall x v, q_value_of (_q_value_map est) x = Ok v -> exists q, v = PyN q /\ (0 <= q)%Q).
  { unfold _calculate_q_values in Hm.
    destruct (fold_left _ _ _) as [st|e] eqn:Ef; cbn [rbind] in Hm; [|discriminate].
    inversion Hm as [Hmap]. clear Hm.
    assert (Hall : Forall (fun a => exists q, snd a = PyN q /\ (0 <= q)%Q) (mapping st)).
    { apply (q_value_fold_nonneg pi (tda_fields est) (py_sorted (fun x => x) (thresholds (tda_fields est))) qv_init st); [| |exists 0%Q; split; [reflexivity|apply Qle_refl]|exact Ef].
      - intros x v. apply fdr_nonneg; rewrite ?Hcfg; assumption.
      - constructor. }
    intros x v Hx. unfold q_value_of in Hx. try rewrite <- Hmap in Hx.
    destruct (nvl_getitem_value _ _ _ _ Hx) as [->|(key & Hin)].
    - exists 0%Q; split; [reflexivity|apply Qle_refl].
    - exact (proj1 (Forall_forall _ _) (NVL_init_Forall _ _ Hall) _ Hin). }
  split; [exact Hq|].
  intros s2 u s3 H3 r Hin. unfold tda_q_values, mbind at 1 in H3.
  rewrite Ht, Hd in H3.
  destruct (iterM _ ts s2) as [[u1 s4]|e] eqn:E1; [|discriminate].
  apply in_app_or in Hin.
  eapply iterM_set_nonneg; [exact Hq|exact H3|].
  destruct Hin as [Hin|Hin]; [right|left; exact Hin].
  eapply iterM_set_nonneg; [exact Hq|exact E1|left; exact Hin].
Qed.

Lemma c3_q_values_nonnegative_witness :
  match TDA_init nb_mass_exact (cfg_of true 0 1 1) [0; 1]%nat [2; 3; 4]%nat
          (store_of [F 2; F 1; F 4; F 3; F 3]) with
  | Ok (est, _) =>
      (forall x v, q_value_of (_q_value_map est) x = Ok v -> exists q, v = PyN q /\ (0 <= q)%Q) /\
      (forall s2 u s3, tda_q_values est s2 = Ok (u, s3) ->
         forall r, In r ([0; 1]%nat ++ [2; 3; 4]%nat) ->
           exists q, q_value (s3 r) = PyN q /\ (0 <= q)%Q)
  | Raise _ => False
  end.
Proof.
  destruct (TDA_init nb_mass_exact (cfg_of true 0 1 1) [0; 1]%nat [2; 3; 4]%nat
              (store_of [F 2; F 1; F 4; F 3; F 3])) as [[est s']|e] eqn:H;
    [|cbv in H; discriminate].
  exact (c3_q_values_nonnegative nb_mass_exact (cfg_of true 0 1 1) _ _ _ _ _
           (Qeq_refl 0) ltac:(vm_compute; discriminate) ltac:(vm_compute; discriminate) H).
Defined.

(** * Further properties of the code *)

(** ** Totality of ScoreIndex lookups *)
Lemma fci_loop_total {V} (arr : list (fscore * V)) v fuel lo hi :
  Forall (fun a => np_isnan (fst a) = false) arr -> np_isnan v = false ->
  0 <= lo < hi -> hi < Z.of_nat (length arr) -> hi - lo < Z.of_nat fuel ->
  exists i, fci_loop fuel arr v lo hi = Ok (Some i) /\ lo <= i < hi.
Proof.
  intros Hn Hv. revert lo hi; induction fuel as [|fuel IH]; intros lo hi Hlo Hhi Hf; [lia|].
  cbn [fci_loop].
  replace (hi - lo =? 0) with false by (symmetry; apply Z.eqb_neq; lia).
  assert (Hi : lo <= (hi + lo) / 2 < hi) by (split; [apply Z.div_le_lower_bound|apply Z.div_lt_upper_bound]; lia).
  set (i := (hi + lo) / 2) in *.
  destruct (py_index_in arr i ltac:(lia)) as ([x qx] & Hx & Hpx).
  rewrite Hpx. cbn [rbind fst].
  assert (Hxn : np_isnan x = false)
    by exact (proj1 (Forall_forall _ _) Hn _ (nth_error_In _ _ Hx)).
  destruct (f_eq x v) eqn:Exv; [exists i; split; [reflexivity|lia]|].
  destruct (hi - lo =? 1) eqn:E1; [exists i; split; [reflexivity|lia]|].
  apply Z.eqb_neq in E1.
  assert (Hi2 : lo + 1 <= i) by (unfold i; apply Z.div_le_lower_bound; lia).
  destruct (f_lt x v) eqn:Lxv.
  { destruct (IH i hi ltac:(lia) ltac:(lia) ltac:(lia)) as (j & Hr & Hb).
    exists j. split; [exact Hr|lia]. }
  destruct (f_lt v x) eqn:Lvx.
  { destruct (IH lo i ltac:(lia) ltac:(lia) ltac:(lia)) as (j & Hr & Hb).
    exists j. split; [exact Hr|lia]. }
  exfalso.
  assert (Hne : x <> v) by (intros ->; rewrite f_eq_refl in Exv; [discriminate|exact Hv]).
  destruct (f_lt_total x v Hxn Hv Hne) as [E|E]; congruence.
Qed.

Lemma find_closest_total {V} (arr : list (fscore * V)) v :
  Forall (fun a => np_isnan (fst a) = false) arr -> arr <> [] ->
  exists i, _find_closest_item arr v = Ok (Some i) /\ 0 <= i < Z.of_nat (length arr) /\
    (np_isnan v = true -> i = 0) /\ ((1 < length arr)%nat -> i < Z.of_nat (length arr) - 1).
Proof.
  intros Hn Hne.
  assert (Hl : (0 < length arr)%nat) by (destruct arr; [congruence|simpl; lia]).
  unfold _find_closest_item.
  destruct (np_isnan v) eqn:Ev.
  { exists 0. split; [reflexivity|split; [lia|split; [auto|lia]]]. }
  destruct (0 =? Z.of_nat (length arr) - 1) eqn:E.
  { apply Z.eqb_eq in E. exists 0. split; [reflexivity|split; [lia|split; [discriminate|lia]]]. }
  apply Z.eqb_neq in E.
  destruct (fci_loop_total arr v (S (length arr)) 0 (Z.of_nat (length arr) - 1) Hn Ev
              ltac:(lia) ltac:(lia) ltac:(lia)) as (i & Hr & Hb).
  exists i. split; [exact Hr|split; [lia|split; [discriminate|lia]]].
Qed.

Lemma nvl_getitem_total {V} (zero : V) t v :
  Forall (fun a => np_isnan (fst a) = false) (nvl_items t) -> nvl_items t <> [] ->
  exists j k w, nth_error (nvl_items t) j = Some (k, w) /\
    nvl_getitem zero t v = (if f_lt k v then Ok zero else Ok w).
Proof.
  intros Hn Hne.
  destruct (find_closest_total (nvl_items t) v Hn Hne) as (i & Hf & Hb & _ & _).
  unfold nvl_getitem, nvl_len. rewrite Hf. cbn [rbind].
  set (ix := if Z.of_nat (length (nvl_items t)) <=? i + 1
             then Z.of_nat (length (nvl_items t)) - 1 else i + 1).
  assert (Hix : 0 <= ix < Z.of_nat (length (nvl_items t))).
  { unfold ix. destruct (_ <=? _) eqn:E; [apply Z.leb_le in E|apply Z.leb_gt in E]; lia. }
  destruct (py_index_in _ ix Hix) as ([k w] & Hk & Hp).
  rewrite Hp. cbn [rbind fst snd].
  exists (Z.to_nat ix), k, w. split; [exact Hk|]. destruct (f_lt k v); reflexivity.
Qed.

(** ** Building a ScoreIndex *)
Lemma In_NVL_init {V} (d : dict V) kv :
  In kv (nvl_items (NVL_init d)) <-> In kv d /\ np_isnan (fst kv) = false.
Proof. simpl. rewrite In_py_sorted, filter_In, negb_true_iff. reflexivity. Qed.

Lemma NVL_init_nonempty {V} (d : dict V) :
  (exists kv, In kv d /\ np_isnan (fst kv) = false) -> nvl_items (NVL_init d) <> [].
Proof.
  intros (kv & Hkv) E. apply (proj2 (In_NVL_init d kv)) in Hkv. rewrite E in Hkv. destruct Hkv.
Qed.

Lemma nvl_getitem_above {V} (zero : V) t v :
  Forall (fun a => np_isnan (fst a) = false /\ f_lt (fst a) v = true) (nvl_items t) ->
  nvl_items t <> [] -> nvl_getitem zero t v = Ok zero.
Proof.
  intros Hn Hne.
  destruct (nvl_getitem_total zero t v) as (j & k & w & Hj & ->); auto.
  - eapply Forall_impl; [|exact Hn]. intros a [Ha _]; exact Ha.
  - pose proof (proj2 (proj1 (Forall_forall _ _) Hn _ (nth_error_In _ _ Hj))) as Hk.
    simpl in Hk. rewrite Hk. reflexivity.
Qed.

Lemma fci_loop_below {V} (arr : list (fscore * V)) v fuel hi :
  Forall (fun a => f_lt v (fst a) = true) arr ->
  0 < hi -> hi < Z.of_nat (length arr) -> hi < Z.of_nat fuel ->
  fci_loop fuel arr v 0 hi = Ok (Some 0).
Proof.
  intros Hn. revert hi; induction fuel as [|fuel IH]; intros hi Hlo Hhi Hf; [lia|].
  cbn [fci_loop].
  replace (hi - 0 =? 0) with false by (symmetry; apply Z.eqb_neq; lia).
  assert (Hi : 0 <= (hi + 0) / 2 < hi) by (split; [apply Z.div_le_lower_bound|apply Z.div_lt_upper_bound]; lia).
  set (i := (hi + 0) / 2) in *.
  destruct (py_index_in arr i ltac:(lia)) as ([x qx] & Hx & Hpx).
  rewrite Hpx. cbn [rbind fst].
  assert (Hvx : f_lt v x = true)
    by exact (proj1 (Forall_forall _ _) Hn _ (nth_error_In _ _ Hx)).
  rewrite (f_lt_f_eq' _ _ Hvx).
  destruct (hi - 0 =? 1) eqn:E1.
  { apply Z.eqb_eq in E1. replace i with 0 by (unfold i; replace hi with 1 by lia; reflexivity). reflexivity. }
  apply Z.eqb_neq in E1.
  rewrite (f_lt_asym _ _ Hvx), Hvx.
  assert (Hi2 : 1 <= i) by (unfold i; apply Z.div_le_lower_bound; lia).
  apply IH; lia.
Qed.

(** ** [get_pair] *)
Lemma get_pair_short {V} (t : NearestValueLookUp V) key :
  (length (nvl_items t) < 2)%nat -> get_pair t key = Raise IndexError.
Proof.
  destruct t as [[|a [|b l]]]; simpl; intros H; try lia; destruct key; reflexivity.
Qed.

Lemma get_pair_long {V} (t : NearestValueLookUp V) key :
  Forall (fun a => np_isnan (fst a) = false) (nvl_items t) ->
  (2 <= length (nvl_items t))%nat ->
  exists j kv, (1 <= j)%nat /\ nth_error (nvl_items t) j = Some kv /\ get_pair t key = Ok kv.
Proof.
  intros Hn Hl.
  assert (Hne : nvl_items t <> []) by (destruct (nvl_items t); simpl in Hl; [lia|discriminate]).
  destruct (find_closest_total (nvl_items t) key Hn Hne) as (i & Hf & Hb & _ & Hb2).
  specialize (Hb2 ltac:(lia)).
  unfold get_pair. rewrite Hf. cbn [rbind].
  destruct (py_index_in (nvl_items t) (i + 1) ltac:(lia)) as (kv & Hk & Hp).
  exists (Z.to_nat (i + 1)), kv. split; [lia|split; assumption].
Qed.

(** ** Distinct keys and strict sorting *)
Lemma f_eq_sym a b : f_eq a b = f_eq b a.
Proof. destruct a, b; simpl; auto. apply Z.eqb_sym. Qed.

Lemma In_sort_insert_key_strict {A} (key : A -> fscore) x l :
  StronglySorted (fun a b => flt (key a) (key b)) l ->
  Forall (fun a => nonnan (key a)) l -> nonnan (key x) ->
  Forall (fun a => key x <> key a) l ->
  StronglySorted (fun a b => flt (key a) (key b)) (sort_insert key x l).
Proof.
  induction l as [|y l IH]; intros Hs Hn Hx Hd; simpl.
  - repeat constructor.
  - inversion Hs as [|? ? Hs' Hf]; subst. inversion Hn; subst. inversion Hd; subst.
    destruct (f_lt (key x) (key y)) eqn:L.
    + constructor; [exact Hs|]. constructor; [exact L|].
      eapply Forall_impl; [|exact Hf]. intros z Hz. exact (f_lt_trans _ _ _ L Hz).
    + assert (Lyx : f_lt (key y) (key x) = true).
      { destruct (f_lt_total (key x) (key y)) as [H|H]; auto; congruence. }
      constructor.
      * apply IH; auto.
      * apply Forall_forall. intros z Hz. apply In_sort_insert in Hz.
        destruct Hz as [-> | Hz]; [exact Lyx|].
        exact (proj1 (Forall_forall _ _) Hf z Hz).
Qed.

Lemma py_sorted_strict_key {A} (key : A -> fscore) l :
  ForallOrdPairs (fun a b => key a <> key b) l -> Forall (fun a => nonnan (key a)) l ->
  StronglySorted (fun a b => flt (key a) (key b)) (py_sorted key l).
Proof.
  unfold py_sorted.
  assert (G : forall acc, StronglySorted (fun a b => flt (key a) (key b)) acc ->
            Forall (fun a => nonnan (key a)) acc ->
            ForallOrdPairs (fun a b => key a <> key b) l -> Forall (fun a => nonnan (key a)) l ->
            (forall x y, In x l -> In y acc -> key x <> key y) ->
            StronglySorted (fun a b => flt (key a) (key b))
              (fold_left (fun acc x => sort_insert key x acc) l acc)).
  { induction l as [|x l IH]; intros acc Hs Hn Hd Hl Hdis; simpl; auto.
    inversion Hd as [|? ? Hx Hd']; subst. inversion Hl; subst.
    apply IH; auto.
    - apply In_sort_insert_key_strict; auto.
      apply Forall_forall. intros y Hy. exact (Hdis x y (or_introl eq_refl) Hy).
    - apply Forall_forall. intros z Hz. apply In_sort_insert in Hz.
      destruct Hz as [-> | Hz]; auto. exact (proj1 (Forall_forall _ _) Hn z Hz).
    - intros z y Hz Hy. apply In_sort_insert in Hy. destruct Hy as [-> | Hy].
      + intros E. exact (proj1 (Forall_forall _ _) Hx z Hz (eq_sym E)).
      + exact (Hdis z y (or_intror Hz) Hy). }
  intros Hd Hl. apply G; [constructor|constructor|auto|auto|intros x y _ []].
Qed.

Lemma FOP_filter {A} (R S : A -> A -> Prop) (f : A -> bool) l :
  ForallOrdPairs R l ->
  (forall a b, f a = true -> f b = true -> R a b -> S a b) ->
  ForallOrdPairs S (filter f l).
Proof.
  intros H HRS. induction H as [|a l Ha Hl IH]; simpl; [constructor|].
  destruct (f a) eqn:Ea; auto. constructor; auto.
  apply Forall_forall. intros b Hb. apply filter_In in Hb. destruct Hb as [Hb Eb].
  exact (HRS a b Ea Eb (proj1 (Forall_forall _ _) Ha b Hb)).
Qed.

Lemma NVL_init_strict {V} (d : dict V) :
  py_dict_ok d -> StronglySorted (fun a b => flt (fst a) (fst b)) (nvl_items (NVL_init d)).
Proof.
  intros Hd. cbn [NVL_init nvl_items]. apply py_sorted_strict_key.
  - eapply FOP_filter; [exact Hd|]. intros a b Ea _ E Heq. cbv beta in *.
    apply negb_true_iff in Ea. rewrite Heq, f_eq_refl in E; [discriminate|].
    rewrite <- Heq; exact Ea.
  - apply Forall_forall. intros a Ha. apply filter_In in Ha. apply negb_true_iff, Ha.
Qed.

Lemma In_dict_set {V} kv k (v : V) d : In kv (dict_set k v d) -> In kv d \/ kv = (k, v).
Proof.
  induction d as [|[k' v'] d IH]; simpl; [intuition|].
  destruct (f_eq k k'); simpl; intuition.
Qed.

Lemma keys_dict_set {V} k (v : V) d k0 :
  In k0 (map fst (dict_set k v d)) <-> k0 = k \/ In k0 (map fst d).
Proof.
  induction d as [|[k' v'] d IH]; simpl; [intuition|].
  destruct (f_eq k k') eqn:E; simpl.
  - apply f_eq_eq in E; subst k'. intuition.
  - rewrite IH. intuition.
Qed.

Lemma dict_set_ok {V} k (v : V) d : py_dict_ok d -> py_dict_ok (dict_set k v d).
Proof.
  unfold py_dict_ok. induction d as [|[k' v'] d IH]; intros Hd; simpl.
  - repeat constructor.
  - inversion Hd as [|? ? Hf Hd']; subst.
    destruct (f_eq k k') eqn:E.
    + apply f_eq_eq in E; subst k'. constructor; auto.
    + constructor; [|apply IH, Hd'].
      apply dict_set_Forall; [exact Hf|]. simpl. rewrite f_eq_sym. exact E.
Qed.

Lemma NVL_init_keys {V} (d : dict V) k :
  In k (map fst (nvl_items (NVL_init d))) <-> np_isnan k = false /\ In k (map fst d).
Proof.
  rewrite !in_map_iff. split.
  - intros ([k' v] & <- & Hin). apply In_NVL_init in Hin. destruct Hin as [Hin Hn].
    split; [exact Hn|]. exists (k', v); auto.
  - intros (Hn & [k' v] & <- & Hin). exists (k', v). split; [reflexivity|].
    apply In_NVL_init. auto.
Qed.

(** X1: a ScoreIndex built from a dict with at least one non-NaN key answers
    every query, NaN included, without raising: the answer is the default
    [zero] or the value of one of the dict's non-NaN keys. *)
Theorem nvl_lookup_total {V} (zero : V) (d : dict V) (v : fscore)
  (Hd : exists kv, In kv d /\ np_isnan (fst kv) = false) :
  exists w, nvl_getitem zero (NVL_init d) v = Ok w /\
    (w = zero \/ exists k, In (k, w) d /\ np_isnan k = false).
Proof.
  destruct (nvl_getitem_total zero (NVL_init d) v (NVL_init_no_nan d) (NVL_init_nonempty d Hd))
    as (j & k & w & Hj & ->).
  destruct (f_lt k v).
  - exists zero. auto.
  - exists w. split; [reflexivity|right].
    apply nth_error_In, In_NVL_init in Hj. exists k. exact Hj.
Qed.

Lemma nvl_lookup_total_witness :
  exists w, nvl_getitem 0 (NVL_init [(F 1, 10); (NaN, 5)]) (F 3) = Ok w /\
    (w = 0 \/ exists k, In (k, w) [(F 1, 10); (NaN, 5)] /\ np_isnan k = false).
Proof.
  apply (nvl_lookup_total 0 [(F 1, 10); (NaN, 5)] (F 3)).
  exists (F 1, 10). split; [left; reflexivity|reflexivity].
Defined.

(** X2: a query strictly above every non-NaN key of a non-empty ScoreIndex
    returns the default [zero]. *)
Theorem nvl_lookup_above_all_keys {V} (zero : V) (d : dict V) v
  (Hd : exists kv, In kv d /\ np_isnan (fst kv) = false)
  (Hv : forall kv, In kv d -> np_isnan (fst kv) = false -> f_lt (fst kv) v = true) :
  nvl_getitem zero (NVL_init d) v = Ok zero.
Proof.
  apply nvl_getitem_above; [|exact (NVL_init_nonempty d Hd)].
  apply Forall_forall. intros kv Hkv. apply In_NVL_init in Hkv. destruct Hkv as [Hin Hn].
  split; [exact Hn|exact (Hv kv Hin Hn)].
Qed.

Lemma nvl_lookup_above_all_keys_witness :
  nvl_getitem 0 (NVL_init [(F 1, 10); (F 2, 20)]) (F 3) = Ok 0.
Proof.
  apply nvl_lookup_above_all_keys.
  - exists (F 1, 10). split; [left; reflexivity|reflexivity].
  - intros kv Hkv _. destruct Hkv as [<-|[<-|[]]]; reflexivity.
Defined.

(** X3: a NaN query, or a query strictly below every non-NaN key, returns the
    value of [items[1]] of the sorted index, or the value of the only entry
    when the index has one entry. *)
Theorem nvl_lookup_below_all_keys {V} (zero : V) (d : dict V) v k w
  (Hv : np_isnan v = true \/
        forall kv, In kv d -> np_isnan (fst kv) = false -> f_lt v (fst kv) = true)
  (Hk : nth_error (nvl_items (NVL_init d)) 1 = Some (k, w) \/ nvl_items (NVL_init d) = [(k, w)]) :
  nvl_getitem zero (NVL_init d) v = Ok w.
Proof.
  set (arr := nvl_items (NVL_init d)) in *.
  assert (Hkv : In (k, w) arr)
    by (destruct Hk as [Hk|Hk]; [exact (nth_error_In _ _ Hk)|rewrite Hk; left; reflexivity]).
  assert (Hidx : py_index arr (if Z.of_nat (length arr) <=? 0 + 1 then Z.of_nat (length arr) - 1
                               else 0 + 1) = Ok (k, w)).
  { destruct Hk as [Hk|Hk].
    - assert (Hl : (1 < length arr)%nat) by (apply nth_error_Some; congruence).
      replace (Z.of_nat (length arr) <=? 0 + 1) with false by (symmetry; apply Z.leb_gt; lia).
      change (0 + 1) with (Z.of_nat 1). rewrite (py_index_nat arr 1). rewrite Hk. reflexivity.
    - rewrite Hk. reflexivity. }
  assert (Hfc : _find_closest_item arr v = Ok (Some 0)).
  { unfold _find_closest_item. destruct Hv as [Hv|Hv]; [rewrite Hv; reflexivity|].
    pose proof Hkv as Hkv0. apply In_NVL_init in Hkv. destruct Hkv as [Hin Hn].
    pose proof (f_lt_not_nan _ _ (Hv _ Hin Hn)) as [Hvn _]. rewrite Hvn.
    destruct (0 =? Z.of_nat (length arr) - 1) eqn:E; [reflexivity|].
    apply Z.eqb_neq in E.
    assert (Hl : (0 < length arr)%nat) by (destruct arr; [destruct Hkv0|simpl; lia]).
    apply fci_loop_below; [|lia|lia|lia].
    apply Forall_forall. intros a Ha. apply In_NVL_init in Ha. apply Hv; apply Ha. }
  unfold nvl_getitem, nvl_len. fold arr. rewrite Hfc. cbn [rbind]. rewrite Hidx. cbn [rbind fst snd].
  replace (f_lt k v) with false; [reflexivity|].
  symmetry. destruct Hv as [Hv|Hv].
  - destruct k, v; simpl in *; auto; discriminate.
  - apply In_NVL_init in Hkv. destruct Hkv as [Hin Hn]. apply f_lt_asym, (Hv _ Hin Hn).
Qed.

Lemma nvl_lookup_below_all_keys_witness :
  nvl_getitem 0 (NVL_init [(F 1, 10); (F 2, 20)]) (F 0) = Ok 20.
Proof.
  apply (nvl_lookup_below_all_keys 0 _ (F 0) (F 2) 20).
  - right. intros kv Hkv _. destruct Hkv as [<-|[<-|[]]]; reflexivity.
  - left. reflexivity.
Defined.

(** X4: on a dict with distinct keys, looking up a non-NaN key returns either
    that key's own value or the value of the next larger key of the dict. *)
Theorem nvl_lookup_exact_key {V} (zero : V) (d : dict V) k w0
  (Hd : py_dict_ok d) (Hin : In (k, w0) d) (Hk : np_isnan k = false) :
  exists w, nvl_getitem zero (NVL_init d) k = Ok w /\
    (w = w0 \/
     exists k', In (k', w) d /\ f_lt k k' = true /\
       forall kv, In kv d -> f_lt k (fst kv) = true -> fst kv = k' \/ f_lt k' (fst kv) = true).
Proof.
  set (arr := nvl_items (NVL_init d)).
  assert (Hs : StronglySorted (fun a b => flt (fst a) (fst b)) arr) by exact (NVL_init_strict d Hd).
  assert (Hstr : forall i j a b, (i < j)%nat -> nth_error arr i = Some a ->
                   nth_error arr j = Some b -> f_lt (fst a) (fst b) = true)
    by (intros i j a b Hij Ha Hb; exact (StronglySorted_nth _ _ _ _ _ _ Hs Hij Ha Hb)).
  assert (Hnn : forall i a, nth_error arr i = Some a -> np_isnan (fst a) = false)
    by (intros i a Ha; apply nth_error_In, In_NVL_init in Ha; apply Ha).
  assert (Hka : In (k, w0) arr) by (apply In_NVL_init; auto).
  destruct (In_nth_error _ _ Hka) as (m & Hm).
  destruct (nvl_getitem_found arr Hstr Hnn zero k m w0 Hm) as (j & k1 & w & Hj & Hjv & Hg).
  assert (Hg' : nvl_getitem zero (NVL_init d) k = Ok w)
    by (rewrite <- Hg; destruct (NVL_init d); reflexivity).
  exists w. split; [exact Hg'|].
  destruct (Nat.eq_dec j m) as [->|Hne].
  { rewrite Hm in Hjv. inversion Hjv; subst. left; reflexivity. }
  right. exists k1.
  assert (Hj1 : j = S m) by lia. subst j.
  split; [apply nth_error_In, In_NVL_init in Hjv; apply Hjv|].
  split; [exact (Hstr _ _ _ _ (Nat.lt_succ_diag_r m) Hm Hjv)|].
  intros kv Hkv Hlt.
  assert (Hkvn : np_isnan (fst kv) = false) by exact (proj2 (f_lt_not_nan _ _ Hlt)).
  assert (Hkva : In kv arr) by (apply In_NVL_init; auto).
  destruct (In_nth_error _ _ Hkva) as (p & Hp).
  destruct (Nat.lt_trichotomy p (S m)) as [Hpl|[Hpe|Hpg]].
  - exfalso. destruct (Nat.eq_dec p m) as [->|Hpm].
    + rewrite Hm in Hp. inversion Hp; subst. simpl in Hlt. rewrite f_lt_irrefl in Hlt. discriminate.
    + pose proof (Hstr p m _ _ ltac:(lia) Hp Hm) as H'. simpl in H'.
      rewrite (f_lt_asym _ _ H') in Hlt. discriminate.
  - subst p. rewrite Hjv in Hp. inversion Hp; subst. left; reflexivity.
  - right. exact (Hstr _ _ _ _ Hpg Hjv Hp).
Qed.

Lemma nvl_lookup_exact_key_witness :
  exists w, nvl_getitem 0 (NVL_init [(F 1, 10); (F 2, 20)]) (F 1) = Ok w /\
    (w = 10 \/
     exists k', In (k', w) [(F 1, 10); (F 2, 20)] /\ f_lt (F 1) k' = true /\
       forall kv, In kv [(F 1, 10); (F 2, 20)] -> f_lt (F 1) (fst kv) = true ->
                  fst kv = k' \/ f_lt k' (fst kv) = true).
Proof.
  apply nvl_lookup_exact_key.
  - repeat constructor.
  - left; reflexivity.
  - reflexivity.
Defined.

(** X5: [get_pair] raises [IndexError] on an index with fewer than two
    entries, and otherwise returns an entry at position 1 or later, never
    the first one. *)
Theorem get_pair_never_first {V} (d : dict V) key :
  ((length (nvl_items (NVL_init d)) < 2)%nat -> get_pair (NVL_init d) key = Raise IndexError) /\
  ((2 <= length (nvl_items (NVL_init d)))%nat ->
   exists j kv, (1 <= j)%nat /\ nth_error (nvl_items (NVL_init d)) j = Some kv /\
                get_pair (NVL_init d) key = Ok kv).
Proof.
  split; [apply get_pair_short|apply get_pair_long, NVL_init_no_nan].
Qed.

Lemma get_pair_never_first_witness :
  get_pair (NVL_init [(F 1, 10)]) (F 1) = Raise IndexError /\
  exists j kv, (1 <= j)%nat /\ nth_error (nvl_items (NVL_init [(F 1, 10); (F 2, 20)])) j = Some kv /\
               get_pair (NVL_init [(F 1, 10); (F 2, 20)]) (F 1) = Ok kv.
Proof.
  split.
  - apply (proj1 (get_pair_never_first [(F 1, 10)] (F 1))). simpl; lia.
  - apply (proj2 (get_pair_never_first [(F 1, 10); (F 2, 20)] (F 1))). simpl; lia.
Defined.

(** X6: on a dict with distinct keys, [NearestValueLookUp] keeps exactly the
    entries whose key is not NaN, strictly sorted by key. *)
Theorem nvl_init_sorted_entries {V} (d : dict V) (Hd : py_dict_ok d) :
  StronglySorted (fun a b => flt (fst a) (fst b)) (nvl_items (NVL_init d)) /\
  (forall kv, In kv (nvl_items (NVL_init d)) <-> In kv d /\ np_isnan (fst kv) = false).
Proof. split; [exact (NVL_init_strict d Hd)|apply In_NVL_init]. Qed.

Lemma nvl_init_sorted_entries_witness :
  StronglySorted (fun a b => flt (fst a) (fst b)) (nvl_items (NVL_init [(F 2, 20); (NaN, 5); (F 1, 10)])) /\
  (forall kv, In kv (nvl_items (NVL_init [(F 2, 20); (NaN, 5); (F 1, 10)])) <->
              In kv [(F 2, 20); (NaN, 5); (F 1, 10)] /\ np_isnan (fst kv) = false).
Proof. apply nvl_init_sorted_entries. repeat constructor. Defined.






(** ** Keys of a [ScoreThresholdCounter] *)
Lemma In_py_set_add y x s : In y (py_set_add x s) <-> In y s \/ y = x.
Proof.
  unfold py_set_add. destruct (existsb (f_eq x) s) eqn:E.
  - apply existsb_exists in E. destruct E as (z & Hz & Ez). apply f_eq_eq in Ez; subst z.
    split; [auto|intros [H | ->]; auto].
  - rewrite in_app_iff. simpl. intuition.
Qed.

Lemma In_py_set_union y s l : In y (py_set_union s l) <-> In y s \/ In y l.
Proof.
  unfold py_set_union. revert s; induction l as [|x l IH]; intros s; simpl; [intuition|].
  rewrite IH, In_py_set_add. intuition.
Qed.

Lemma In_skipn {A} (x : A) n l : In x (skipn n l) -> In x l.
Proof.
  revert l; induction n as [|n IH]; intros [|y l]; simpl; auto.
Qed.

Lemma advance_loop_keys P x rest st :
  (forall t, In t rest -> P t) -> Forall (fun kv => P (fst kv)) (counter st) ->
  Forall (fun kv => P (fst kv)) (counter (advance_loop x rest st)).
Proof.
  revert st; induction rest as [|t rest IH]; intros st Hr Hc; simpl; [exact Hc|].
  assert (Hc' : Forall (fun kv => P (fst kv)) (dict_set t (current_count st) (counter st)))
    by (apply dict_set_Forall; [exact Hc|exact (Hr t (or_introl eq_refl))]).
  destruct (f_lt t x); [apply IH; [intros u Hu; apply Hr; right; exact Hu|exact Hc']|exact Hc'].
Qed.

Lemma find_counts_keys P ths l st :
  (forall t, In t ths -> P t) -> Forall (fun kv => P (fst kv)) (counter st) ->
  Forall (fun kv => P (fst kv)) (counter (find_counts ths l st)).
Proof.
  unfold find_counts. revert st; induction l as [|x l IH]; intros st Hr Hc; simpl; [exact Hc|].
  apply IH; [exact Hr|]. unfold stc_test.
  destruct (f_lt x (current_threshold st)); [exact Hc|].
  apply advance_loop_keys; [|exact Hc]. intros t Ht. apply Hr, (In_skipn _ _ _ Ht).
Qed.

Lemma complement_fold_props P n c acc :
  Forall (fun kv => P (fst kv)) c -> Forall (fun kv => P (fst kv)) acc -> py_dict_ok acc ->
  Forall (fun kv => P (fst kv)) (fold_left (fun acc kv => dict_set (fst kv) (n - snd kv) acc) c acc) /\
  py_dict_ok (fold_left (fun acc kv => dict_set (fst kv) (n - snd kv) acc) c acc).
Proof.
  revert acc; induction c as [|kv c IH]; intros acc Hc Ha Ho; simpl; [auto|].
  inversion Hc; subst. apply IH; auto.
  - apply dict_set_Forall; auto.
  - apply dict_set_ok, Ho.
Qed.

Lemma STC_init_keys series ths0 st :
  STC_init series ths0 = Ok st ->
  py_dict_ok (fold_left (fun acc kv => dict_set (fst kv) (Z.of_nat (length series) - snd kv) acc)
                (counter (stc_final st)) []) /\
  counts_above_threshold st =
    NVL_init (fold_left (fun acc kv => dict_set (fst kv) (Z.of_nat (length series) - snd kv) acc)
                (counter (stc_final st)) []) /\
  Forall (fun kv => In (fst kv) ths0) (nvl_items (counts_above_threshold st)).
Proof.
  unfold STC_init. destruct (py_index _ 0) as [t0|e]; cbn [rbind]; [|discriminate].
  intros H; inversion H; subst; clear H. cbn [counts_above_threshold stc_final].
  rewrite length_py_sorted.
  set (ths := py_sorted (fun x => x) (py_set (map np_round10 ths0))).
  assert (Hths : forall t, In t ths -> In t ths0).
  { intros t Ht. unfold ths in Ht. apply In_py_sorted in Ht. unfold py_set in Ht.
    apply In_py_set_union in Ht. destruct Ht as [[]|Ht].
    unfold np_round10 in Ht. rewrite map_id in Ht. exact Ht. }
  pose proof (find_counts_keys (fun t => In t ths0) ths (py_sorted (fun x => x) series)
    {| counter := []; threshold_index := 0; current_threshold := t0;
       current_count := 0; stc_i := 0; is_done := false |} Hths (Forall_nil _)) as Hk.
  destruct (complement_fold_props (fun t => In t ths0) (Z.of_nat (length series)) _ []
              Hk (Forall_nil _) (FOP_nil _)) as [Hf Ho].
  split; [exact Ho|split; [reflexivity|]].
  unfold compute_complement. apply NVL_init_Forall, Hf.
Qed.

Lemma STC_init_empty_series ths st :
  STC_init [] ths = Ok st -> nvl_items (counts_above_threshold st) = [].
Proof.
  unfold STC_init. destruct (py_index _ 0) as [t0|e]; cbn [rbind]; [|discriminate].
  intros H; inversion H; subst; clear H. reflexivity.
Qed.

Lemma STC_table_props series ths st :
  STC_init series ths = Ok st ->
  StronglySorted (fun a b => flt (fst a) (fst b)) (nvl_items (counts_above_threshold st)) /\
  Forall (fun kv => In (fst kv) ths /\ np_isnan (fst kv) = false /\
                    0 <= snd kv <= Z.of_nat (length series))
    (nvl_items (counts_above_threshold st)).
Proof.
  intros H.
  destruct (STC_init_keys _ _ _ H) as (Ho & Heq & Hk).
  pose proof (STC_init_within _ _ _ H) as Hw.
  split; [rewrite Heq; apply NVL_init_strict, Ho|].
  apply Forall_forall. intros kv Hkv.
  split; [exact (proj1 (Forall_forall _ _) Hk _ Hkv)|].
  split; [rewrite Heq in Hkv; apply In_NVL_init in Hkv; apply Hkv|].
  exact (proj1 (Forall_forall _ _) Hw _ Hkv).
Qed.

(* extras: threshold counter *)

(** X8: [ScoreThresholdCounter] over an empty threshold list raises
    [IndexError] (on [thresholds[0]]), whatever the series. *)
Theorem stc_no_thresholds_raises series :
  STC_init series [] = Raise IndexError.
Proof. reflexivity. Qed.

(** X9: the count table [counts_above_threshold] of a constructed
    [ScoreThresholdCounter] has strictly increasing, non-NaN keys, with
    counts between 0 and the series length. *)
Theorem stc_count_table_shape series ths st (H : STC_init series ths = Ok st) :
  StronglySorted (fun a b => flt (fst a) (fst b)) (nvl_items (counts_above_threshold st)) /\
  Forall (fun kv => np_isnan (fst kv) = false /\ 0 <= snd kv <= Z.of_nat (length series))
    (nvl_items (counts_above_threshold st)).
Proof.
  destruct (STC_table_props series ths st H) as [Hs Hf]. split; [exact Hs|].
  eapply Forall_impl; [|exact Hf]. intros kv (_ & Hn & Hc). auto.
Qed.

Lemma stc_count_table_shape_witness :
  match STC_init [F 1; F 2; F 2] [F 1; F 2] with
  | Ok st =>
    StronglySorted (fun a b => flt (fst a) (fst b)) (nvl_items (counts_above_threshold st)) /\
    Forall (fun kv => np_isnan (fst kv) = false /\ 0 <= snd kv <= 3)
      (nvl_items (counts_above_threshold st))
  | Raise _ => False
  end.
Proof.
  destruct (STC_init [F 1; F 2; F 2] [F 1; F 2]) as [st|e] eqn:H; [|vm_compute in H; discriminate].
  exact (stc_count_table_shape _ _ _ H).
Defined.

(** ** Count tables and the calibration curve of an analyzer *)
Lemma build_core_tables cfg tsc dsc c :
  build_core cfg tsc dsc = Ok c ->
  target_count c = Z.of_nat (length tsc) /\ decoy_count c = Z.of_nat (length dsc) /\
  ((thresholds c = [] /\ n_targets_at c = None /\ n_decoys_at c = None) \/
   exists st sd, STC_init tsc (thresholds c) = Ok st /\ STC_init dsc (thresholds c) = Ok sd /\
     n_targets_at c = Some (counts_above_threshold st) /\
     n_decoys_at c = Some (counts_above_threshold sd)).
Proof.
  unfold build_core. intros H.
  destruct (0 <? Z.of_nat (length _)) eqn:E.
  - destruct (STC_init tsc _) as [st|e] eqn:Et; cbn [rbind] in H; [|discriminate].
    destruct (STC_init dsc _) as [sd|e] eqn:Ed; cbn [rbind] in H; [|discriminate].
    inversion H; subst; clear H; simpl.
    split; [reflexivity|split; [reflexivity|right]]. exists st, sd. auto.
  - inversion H; subst; clear H; simpl.
    split; [reflexivity|split; [reflexivity|left]]. split; [|auto].
    apply Z.ltb_ge in E. destruct (py_sorted _ _); [reflexivity|simpl in E; lia].
Qed.

Lemma thresholds_In cfg tsc dsc c y :
  build_core cfg tsc dsc = Ok c -> In y (thresholds c) <-> In y tsc \/ In y dsc.
Proof.
  intros H. rewrite (build_core_thresholds _ _ _ _ H), In_py_sorted.
  unfold py_set. rewrite !In_py_set_union. simpl. intuition.
Qed.

Lemma count_at_empty t x : nvl_items t = [] -> count_at (Some t) x = Ok None.
Proof. destruct t as [items]; simpl; intros ->. unfold count_at. rewrite nvl_getitem_empty. reflexivity. Qed.

Lemma fold_keys pi c L : forall st st',
  fold_left (q_value_step pi c) L (Ok st) = Ok st' ->
  forall k, In k (map fst (mapping st')) <-> In k (map fst (mapping st)) \/ In k L.
Proof.
  induction L as [|x L IH]; intros st st' H k.
  - simpl in H; inversion H; subst. simpl. intuition.
  - cbn [fold_left] in H. unfold q_value_step at 2 in H. cbn [rbind] in H.
    destruct (fdr_with_percent_incorrect_targets pi c x) as [q|e].
    + rewrite (IH _ _ H k). cbn [mapping]. rewrite keys_dict_set. simpl. intuition.
    + destruct e; cbn iota in H; try (rewrite fold_q_value_step_raise in H; discriminate).
      rewrite (IH _ _ H k). cbn [mapping]. rewrite keys_dict_set. simpl. intuition.
Qed.

Lemma calc_q_values_inv pi c m :
  _calculate_q_values pi c = Ok m ->
  exists st, fold_left (q_value_step pi c) (py_sorted (fun x => x) (thresholds c)) (Ok qv_init) = Ok st /\
             m = NVL_init (mapping st).
Proof.
  unfold _calculate_q_values. destruct (fold_left _ _ _) as [st|e]; cbn [rbind]; [|discriminate].
  intros H; inversion H; subst. exists st; auto.
Qed.

Lemma q_map_keys pi cfg ts ds s est s' :
  TDA_init pi cfg ts ds s = Ok (est, s') ->
  forall k, In k (map fst (nvl_items (_q_value_map est))) <->
            np_isnan k = false /\ In k (map (fun r => score (s r)) (ts ++ ds)).
Proof.
  intros H k. destruct (TDA_init_inv _ _ _ _ _ _ _ H) as (_ & _ & _ & Hc & Hm).
  destruct (calc_q_values_inv _ _ _ Hm) as (st & Hf & ->).
  rewrite NVL_init_keys, (fold_keys _ _ _ _ _ Hf k), In_py_sorted, (thresholds_In _ _ _ _ _ Hc).
  rewrite map_app, in_app_iff. simpl. intuition.
Qed.

(** ** Series without decoys *)
Lemma fold_all_raise pi c L : forall st st',
  (forall x, In x L -> exists e, fdr_with_percent_incorrect_targets pi c x = Raise e) ->
  Forall (fun a => snd a = PyN 1) (mapping st) ->
  fold_left (q_value_step pi c) L (Ok st) = Ok st' ->
  Forall (fun a => snd a = PyN 1) (mapping st').
Proof.
  induction L as [|x L IH]; intros st st' Hx Hm H.
  - simpl in H; inversion H; subst; exact Hm.
  - cbn [fold_left] in H. unfold q_value_step at 2 in H. cbn [rbind] in H.
    destruct (Hx x (or_introl eq_refl)) as (e & He). rewrite He in H.
    destruct e; cbn iota in H; try (rewrite fold_q_value_step_raise in H; discriminate).
    apply (IH _ _ (fun y Hy => Hx y (or_intror Hy))) in H; [exact H|].
    apply dict_set_Forall; [exact Hm|reflexivity].
Qed.

Lemma fdr_pit_no_decoys pi c t x :
  with_pit (tda_cfg c) = true -> (decoy_correction (tda_cfg c) == 0)%Q ->
  decoy_count c = 0 -> n_decoys_at c = Some t -> nvl_items t = [] ->
  exists e, fdr_with_percent_incorrect_targets pi c x = Raise e.
Proof.
  intros Hp Hdc Hdn Hd Ht. unfold fdr_with_percent_incorrect_targets. rewrite Hp.
  unfold estimate_percent_incorrect_targets.
  destruct (n_targets_above_threshold c x) as [ta|e]; cbn [rbind]; [|eexists; reflexivity].
  unfold n_decoys_above_threshold. rewrite Hd, (count_at_empty _ _ Ht). cbn [rbind].
  rewrite Hdn. replace (Qeq_bool (inject_Z 0 - decoy_correction (tda_cfg c)) 0) with true.
  - eexists; reflexivity.
  - symmetry. apply Qeq_bool_iff. rewrite Hdc. reflexivity.
Qed.

Lemma fold_all_zero pi c L : forall st st',
  (forall x, In x L -> match fdr_with_percent_incorrect_targets pi c x with
                       | Ok (PyN q) => (q == 0)%Q | Ok (NpN _) => False
                       | Raise e => e <> ZeroDivisionError end) ->
  Forall (fun a => exists q, snd a = PyN q /\ (q == 0)%Q) (mapping st) ->
  (exists q, last_q_value st = PyN q /\ (q == 0)%Q) ->
  fold_left (q_value_step pi c) L (Ok st) = Ok st' ->
  Forall (fun a => exists q, snd a = PyN q /\ (q == 0)%Q) (mapping st').
Proof.
  induction L as [|x L IH]; intros st st' Hx Hm (lq & Hlq & Hlq0) H.
  - simpl in H; inversion H; subst; exact Hm.
  - cbn [fold_left] in H. unfold q_value_step at 2 in H. cbn [rbind] in H.
    specialize (Hx x (or_introl eq_refl)) as Hx0.
    destruct (fdr_with_percent_incorrect_targets pi c x) as [[q|np]|e];
      [|contradiction|destruct e; cbn iota in H;
        try (rewrite fold_q_value_step_raise in H; discriminate); contradiction].
    rewrite Hlq in H.
    set (qn := if py_lt (PyN lq) (PyN q) && f_lt (last_score st) x then PyN lq else PyN q) in H.
    assert (Hqn : exists q', qn = PyN q' /\ (q' == 0)%Q)
      by (unfold qn; destruct (_ && _); eexists; split; eauto).
    apply (IH _ _ (fun y Hy => Hx y (or_intror Hy))) in H; [exact H| |exact Hqn].
    apply dict_set_Forall; [exact Hm|exact Hqn].
Qed.

Lemma fdr_no_decoys pi c t x :
  with_pit (tda_cfg c) = false -> (decoy_correction (tda_cfg c) == 0)%Q ->
  n_decoys_at c = Some t -> nvl_items t = [] ->
  match fdr_with_percent_incorrect_targets pi c x with
  | Ok (PyN q) => (q == 0)%Q | Ok (NpN _) => False
  | Raise e => e <> ZeroDivisionError end.
Proof.
  intros Hp Hdc Hd Ht. unfold fdr_with_percent_incorrect_targets. rewrite Hp. cbn [rbind].
  unfold target_decoy_ratio, n_decoys_above_threshold. rewrite Hd, (count_at_empty _ _ Ht).
  cbn [rbind]. unfold n_targets_above_threshold.
  pose proof (count_at_no_zdiv (n_targets_at c) x) as Hz.
  destruct (count_at (n_targets_at c) x) as [o|e]; cbn [rbind]; [|intros ->; exact (Hz eq_refl)].
  replace (Qeq_bool (decoy_correction (tda_cfg c)) 0) with true
    by (symmetry; apply Qeq_bool_iff; exact Hdc).
  cbn [py_add py_div_float].
  destruct o as [ta|]; cbn [rbind];
  match goal with |- context [if ?b then _ else _] => destruct b end; cbn [rbind py_mul];
  try (rewrite Hdc; ring); unfold Qdiv; rewrite Hdc; ring.
Qed.

(** X11: with PIT, no decoy correction and no decoys, every threshold hits a
    [ZeroDivisionError] and the calibration curve stores 1 for every
    threshold; every [q_value_of] answer is 1 (or the default 0). *)
Theorem pit_without_decoys_gives_one pi cfg ts s est s'
  (Hpit : with_pit cfg = true) (Hdc : (decoy_correction cfg == 0)%Q)
  (H : TDA_init pi cfg ts [] s = Ok (est, s')) :
  Forall (fun kv => snd kv = PyN 1) (nvl_items (_q_value_map est)) /\
  forall x v, q_value_of (_q_value_map est) x = Ok v -> v = PyN 1 \/ v = PyN 0.
Proof.
  destruct (TDA_init_inv _ _ _ _ _ _ _ H) as (_ & _ & _ & Hc & Hm).
  pose proof (build_core_cfg _ _ _ _ Hc) as Hcfg.
  destruct (calc_q_values_inv _ _ _ Hm) as (st & Hf & Hq).
  assert (Hall : Forall (fun kv => snd kv = PyN 1) (mapping st)).
  { destruct (build_core_tables _ _ _ _ Hc) as (_ & Hdn & [(Hth & _)|(st0 & sd & _ & Hsd & _ & Hd)]).
    - rewrite Hth in Hf. simpl in Hf. inversion Hf; subst. constructor.
    - eapply (fold_all_raise _ _ _ qv_init); [|constructor|exact Hf].
      intros x _. apply (fdr_pit_no_decoys _ _ _ _ ltac:(rewrite Hcfg; exact Hpit)
                           ltac:(rewrite Hcfg; exact Hdc) Hdn Hd).
      exact (STC_init_empty_series _ _ Hsd). }
  assert (Hall' : Forall (fun kv => snd kv = PyN 1) (nvl_items (_q_value_map est)))
    by (rewrite Hq; apply NVL_init_Forall, Hall).
  split; [exact Hall'|].
  intros x v Hx. unfold q_value_of in Hx.
  destruct (nvl_getitem_value _ _ _ _ Hx) as [->|(key & Hin)]; [right; reflexivity|left].
  exact (proj1 (Forall_forall _ _) Hall' _ Hin).
Qed.

Lemma pit_without_decoys_gives_one_witness :
  match TDA_init nb_mass_exact (cfg_of true 0 1 1) [0%nat; 1%nat] [] (store_of [F 1; F 2]) with
  | Ok (est, _) =>
    Forall (fun kv => snd kv = PyN 1) (nvl_items (_q_value_map est)) /\
    forall x v, q_value_of (_q_value_map est) x = Ok v -> v = PyN 1 \/ v = PyN 0
  | Raise _ => False
  end.
Proof.
  destruct (TDA_init nb_mass_exact (cfg_of true 0 1 1) [0%nat; 1%nat] [] (store_of [F 1; F 2]))
    as [[est s']|e] eqn:H; [|vm_compute in H; discriminate].
  exact (pit_without_decoys_gives_one _ (cfg_of true 0 1 1) _ _ _ _ eq_refl ltac:(vm_compute; reflexivity) H).
Defined.

(** X12: without PIT, with no decoy correction and no decoys, every answer of
    [q_value_of] is a Python float equal to 0. *)
Theorem no_decoys_gives_zero pi cfg ts s est s'
  (Hpit : with_pit cfg = false) (Hdc : (decoy_correction cfg == 0)%Q)
  (H : TDA_init pi cfg ts [] s = Ok (est, s')) :
  forall x v, q_value_of (_q_value_map est) x = Ok v -> exists q, v = PyN q /\ (q == 0)%Q.
Proof.
  destruct (TDA_init_inv _ _ _ _ _ _ _ H) as (_ & _ & _ & Hc & Hm).
  pose proof (build_core_cfg _ _ _ _ Hc) as Hcfg.
  destruct (calc_q_values_inv _ _ _ Hm) as (st & Hf & Hq).
  assert (Hall : Forall (fun kv => exists q, snd kv = PyN q /\ (q == 0)%Q) (mapping st)).
  { destruct (build_core_tables _ _ _ _ Hc) as (_ & _ & [(Hth & _)|(st0 & sd & _ & Hsd & _ & Hd)]).
    - rewrite Hth in Hf. simpl in Hf. inversion Hf; subst. constructor.
    - eapply (fold_all_zero _ _ _ qv_init); [|constructor|exists 0%Q; split; reflexivity|exact Hf].
      intros x _. apply (fdr_no_decoys _ _ _ _ ltac:(rewrite Hcfg; exact Hpit)
                           ltac:(rewrite Hcfg; exact Hdc) Hd).
      exact (STC_init_empty_series _ _ Hsd). }
  intros x v Hx. unfold q_value_of in Hx.
  destruct (nvl_getitem_value _ _ _ _ Hx) as [->|(key & Hin)]; [exists 0%Q; split; reflexivity|].
  rewrite Hq in Hin. exact (proj1 (Forall_forall _ _) (NVL_init_Forall _ _ Hall) _ Hin).
Qed.

Lemma no_decoys_gives_zero_witness :
  match TDA_init nb_mass_exact (cfg_of false 0 1 1) [0%nat; 1%nat] [] (store_of [F 1; F 2]) with
  | Ok (est, _) =>
    forall x v, q_value_of (_q_value_map est) x = Ok v -> exists q, v = PyN q /\ (q == 0)%Q
  | Raise _ => False
  end.
Proof.
  destruct (TDA_init nb_mass_exact (cfg_of false 0 1 1) [0%nat; 1%nat] [] (store_of [F 1; F 2]))
    as [[est s']|e] eqn:H; [|vm_compute in H; discriminate].
  exact (no_decoys_gives_zero _ (cfg_of false 0 1 1) _ _ _ _ eq_refl ltac:(vm_compute; reflexivity) H).
Defined.

(** X13: the keys of the calibration curve are exactly the non-NaN scores of
    the targets and decoys. *)
Theorem q_value_map_keys_are_scores pi cfg ts ds s est s'
  (H : TDA_init pi cfg ts ds s = Ok (est, s')) (k : fscore) :
  In k (map fst (nvl_items (_q_value_map est))) <->
  np_isnan k = false /\ In k (map (fun r => score (s r)) (ts ++ ds)).
Proof. exact (q_map_keys _ _ _ _ _ _ _ H k). Qed.

Lemma q_value_map_keys_are_scores_witness :
  match TDA_init nb_mass_exact (cfg_of false 0 1 1) [0%nat] [1%nat] (store_of [F 1; NaN]) with
  | Ok (est, _) =>
    In (F 1) (map fst (nvl_items (_q_value_map est))) <->
    np_isnan (F 1) = false /\ In (F 1) (map (fun r => score (store_of [F 1; NaN] r)) [0%nat; 1%nat])
  | Raise _ => False
  end.
Proof.
  destruct (TDA_init nb_mass_exact (cfg_of false 0 1 1) [0%nat] [1%nat] (store_of [F 1; NaN]))
    as [[est s']|e] eqn:H; [|vm_compute in H; discriminate].
  exact (q_value_map_keys_are_scores _ _ _ _ _ _ _ H (F 1)).
Defined.

(** X14: if some target or decoy score is not NaN, [q_value_of] answers every
    query without raising; if all of them are NaN (or there are none), every
    [q_value_of] raises [IndexError]. *)
Theorem q_value_of_total_iff_some_score pi cfg ts ds s est s'
  (H : TDA_init pi cfg ts ds s = Ok (est, s')) :
  ((exists r, In r (ts ++ ds) /\ np_isnan (score (s r)) = false) ->
     forall x, exists v, q_value_of (_q_value_map est) x = Ok v) /\
  ((forall r, In r (ts ++ ds) -> np_isnan (score (s r)) = true) ->
     forall x, q_value_of (_q_value_map est) x = Raise IndexError).
Proof.
  destruct (TDA_init_inv _ _ _ _ _ _ _ H) as (_ & _ & _ & _ & Hm).
  destruct (calc_q_values_inv _ _ _ Hm) as (st & _ & Hq).
  assert (Hn : Forall (fun a => np_isnan (fst a) = false) (nvl_items (_q_value_map est)))
    by (rewrite Hq; apply NVL_init_no_nan).
  split.
  - intros (r & Hr & Hrn) x.
    assert (Hne : nvl_items (_q_value_map est) <> []).
    { intros E. assert (Hk : In (score (s r)) (map fst (nvl_items (_q_value_map est)))).
      { apply (q_map_keys _ _ _ _ _ _ _ H). split; [exact Hrn|apply (in_map (fun r => score (s r))), Hr]. }
      rewrite E in Hk. destruct Hk. }
    destruct (nvl_getitem_total (PyN 0) _ x Hn Hne) as (j & k & w & _ & Hg).
    unfold q_value_of. rewrite Hg. destruct (f_lt k x); eexists; reflexivity.
  - intros Hall x.
    assert (E : nvl_items (_q_value_map est) = []).
    { destruct (nvl_items (_q_value_map est)) as [|[k w] l] eqn:E; [reflexivity|exfalso].
      assert (Hk : In k (map fst (nvl_items (_q_value_map est)))) by (rewrite E; left; reflexivity).
      apply (q_map_keys _ _ _ _ _ _ _ H) in Hk. destruct Hk as [Hkn Hk].
      apply in_map_iff in Hk. destruct Hk as (r & <- & Hr). rewrite (Hall r Hr) in Hkn. discriminate. }
    unfold q_value_of. destruct (_q_value_map est) as [items]. simpl in E. subst items.
    apply nvl_getitem_empty.
Qed.

Lemma q_value_of_total_iff_some_score_witness :
  match TDA_init nb_mass_exact (cfg_of false 0 1 1) [0%nat] [1%nat] (store_of [F 1; NaN]) with
  | Ok (est, _) => forall x, exists v, q_value_of (_q_value_map est) x = Ok v
  | Raise _ => False
  end.
Proof.
  destruct (TDA_init nb_mass_exact (cfg_of false 0 1 1) [0%nat] [1%nat] (store_of [F 1; NaN]))
    as [[est s']|e] eqn:H; [|vm_compute in H; discriminate].
  apply (proj1 (q_value_of_total_iff_some_score _ _ _ _ _ _ _ H)).
  exists 0%nat. split; [left; reflexivity|reflexivity].
Defined.

(** ** Stores written by [score] and [q_values] *)
Lemma iter_apply_post (m : NearestValueLookUp pynum) L : forall s u s2,
  iterM (fun r => x <- read_score r;; q <- lift (q_value_of m x);; set_q_value r q) L s = Ok (u, s2) ->
  (forall r, score (s2 r) = score (s r)) /\
  (forall r, In r L -> q_value_of m (score (s r)) = Ok (q_value (s2 r))) /\
  (forall r, ~ In r L -> s2 r = s r).
Proof.
  induction L as [|r0 L IH]; intros s u s2 H.
  - simpl in H; inversion H; subst. repeat split; auto. intros r [].
  - rewrite iterM_cons, set_step in H.
    destruct (q_value_of m (score (s r0))) as [q|e] eqn:E; [|discriminate].
    destruct (IH _ _ _ H) as (Hs & Hin & Hout). clear H IH.
    assert (Hs' : forall r, score (s2 r) = score (s r))
      by (intros r; rewrite Hs; destruct (Nat.eqb r r0) eqn:Er;
          [apply Nat.eqb_eq in Er; subst; reflexivity|reflexivity]).
    split; [exact Hs'|split].
    + intros r Hr. destruct (in_dec Nat.eq_dec r L) as [HL|HL].
      * rewrite <- (Hin r HL). cbv beta. destruct (Nat.eqb r r0) eqn:Er; [|reflexivity].
        apply Nat.eqb_eq in Er; subst; reflexivity.
      * destruct Hr as [<-|Hr]; [|contradiction].
        rewrite (Hout _ HL), Nat.eqb_refl. exact E.
    + intros r Hr. rewrite (Hout r (fun h => Hr (or_intror h))).
      destruct (Nat.eqb r r0) eqn:Er; [|reflexivity].
      apply Nat.eqb_eq in Er; subst. exfalso; apply Hr; left; reflexivity.
Qed.

Lemma iter_apply_total (m : NearestValueLookUp pynum) L : forall s,
  (forall x, exists v, q_value_of m x = Ok v) ->
  exists s2, iterM (fun r => x <- read_score r;; q <- lift (q_value_of m x);; set_q_value r q) L s
             = Ok (tt, s2).
Proof.
  induction L as [|r0 L IH]; intros s Hm.
  - exists s; reflexivity.
  - rewrite iterM_cons, set_step. destruct (Hm (score (s r0))) as (q & ->). apply IH, Hm.
Qed.

Lemma tda_q_values_split a s u s2 :
  tda_q_values a s = Ok (u, s2) ->
  exists s1,
    iterM (fun r => x <- read_score r;; q <- lift (q_value_of (_q_value_map a) x);; set_q_value r q)
      (tda_targets a) s = Ok (tt, s1) /\
    iterM (fun r => x <- read_score r;; q <- lift (q_value_of (_q_value_map a) x);; set_q_value r q)
      (tda_decoys a) s1 = Ok (u, s2).
Proof.
  unfold tda_q_values, mbind at 1.
  destruct (iterM _ (tda_targets a) s) as [[[] s1]|e]; [|discriminate].
  intros H. exists s1. split; [reflexivity|exact H].
Qed.

Lemma tda_q_values_post a s u s2 :
  tda_q_values a s = Ok (u, s2) ->
  (forall r, score (s2 r) = score (s r)) /\
  (forall r, In r (tda_targets a ++ tda_decoys a) ->
     q_value_of (_q_value_map a) (score (s r)) = Ok (q_value (s2 r))) /\
  (forall r, ~ In r (tda_targets a ++ tda_decoys a) -> s2 r = s r).
Proof.
  intros H. destruct (tda_q_values_split _ _ _ _ H) as (s1 & H1 & H2).
  destruct (iter_apply_post _ _ _ _ _ H1) as (Hs1 & Hin1 & Hout1).
  destruct (iter_apply_post _ _ _ _ _ H2) as (Hs2 & Hin2 & Hout2).
  split; [intros r; rewrite Hs2; apply Hs1|split].
  - intros r Hr. destruct (in_dec Nat.eq_dec r (tda_decoys a)) as [Hd|Hd].
    + rewrite <- Hs1. apply Hin2, Hd.
    + apply in_app_or in Hr. destruct Hr as [Hr|Hr]; [|contradiction].
      rewrite (Hout2 _ Hd). apply Hin1, Hr.
  - intros r Hr. rewrite Hout2, Hout1; [reflexivity| |];
      intros h; apply Hr, in_or_app; [left|right]; exact h.
Qed.

(** X16: after a successful [q_values()], every score is unchanged, every
    target and decoy holds the q-value [q_value_of] gives for its score, and
    every other item is unchanged. *)
Theorem tda_q_values_postcondition a s u s2
  (H : tda_q_values a s = Ok (u, s2)) :
  (forall r, score (s2 r) = score (s r)) /\
  (forall r, In r (tda_targets a ++ tda_decoys a) ->
     q_value_of (_q_value_map a) (score (s r)) = Ok (q_value (s2 r))) /\
  (forall r, ~ In r (tda_targets a ++ tda_decoys a) -> s2 r = s r).
Proof. exact (tda_q_values_post a s u s2 H). Qed.

Lemma tda_q_values_postcondition_witness :
  match tda_q_values {| tda_targets := [0%nat]; tda_decoys := [1%nat];
                        tda_fields := {| tda_cfg := cfg_of false 0 1 1; target_count := 1;
                                         decoy_count := 1; thresholds := [F 1; F 2];
                                         n_targets_at := None; n_decoys_at := None |};
                        _q_value_map := NVL_init [(F 0, PyN 1); (F 1, PyN (1 # 2))] |}
                     (store_of [F 1; F 2; F 3]) with
  | Ok (_, s2) =>
    (forall r, score (s2 r) = score (store_of [F 1; F 2; F 3] r)) /\
    q_value_of (NVL_init [(F 0, PyN 1); (F 1, PyN (1 # 2))]) (F 2) = Ok (q_value (s2 1%nat)) /\
    s2 2%nat = store_of [F 1; F 2; F 3] 2%nat
  | Raise _ => False
  end.
Proof.
  match goal with |- match tda_q_values ?a ?s with _ => _ end =>
    destruct (tda_q_values a s) as [[u s2]|e] eqn:H; [|vm_compute in H; discriminate] end.
  destruct (tda_q_values_postcondition _ _ _ _ H) as (H1 & H2 & H3).
  split; [exact H1|split].
  - apply (H2 1%nat). right; left; reflexivity.
  - apply H3. intros [Hr|[Hr|[]]]; discriminate.
Defined.

(** X17: on an analyzer built from series with at least one non-NaN score,
    [q_values()] succeeds on any store. *)
Theorem tda_q_values_succeeds pi cfg ts ds s est s' s2
  (H : TDA_init pi cfg ts ds s = Ok (est, s'))
  (Hr : exists r, In r (ts ++ ds) /\ np_isnan (score (s r)) = false) :
  exists s3, tda_q_values est s2 = Ok (tt, s3).
Proof.
  destruct (TDA_init_inv _ _ _ _ _ _ _ H) as (_ & _ & _ & _ & Hm).
  destruct (calc_q_values_inv _ _ _ Hm) as (st & _ & Hq).
  assert (Hn : Forall (fun a => np_isnan (fst a) = false) (nvl_items (_q_value_map est)))
    by (rewrite Hq; apply NVL_init_no_nan).
  destruct Hr as (r & Hr & Hrn).
  assert (Hne : nvl_items (_q_value_map est) <> []).
  { intros E. assert (Hk : In (score (s r)) (map fst (nvl_items (_q_value_map est)))).
    { apply (q_map_keys _ _ _ _ _ _ _ H). split; [exact Hrn|apply (in_map (fun r => score (s r))), Hr]. }
    rewrite E in Hk. destruct Hk. }
  assert (Ht : forall x, exists v, q_value_of (_q_value_map est) x = Ok v).
  { intros x. destruct (nvl_getitem_total (PyN 0) _ x Hn Hne) as (j & k & w & _ & Hg).
    unfold q_value_of. rewrite Hg. destruct (f_lt k x); eexists; reflexivity. }
  destruct (iter_apply_total _ (tda_targets est) s2 Ht) as (s1 & H1).
  destruct (iter_apply_total _ (tda_decoys est) s1 Ht) as (s3 & H3).
  exists s3. unfold tda_q_values, mbind at 1. rewrite H1. exact H3.
Qed.

Lemma tda_q_values_succeeds_witness :
  match TDA_init nb_mass_exact (cfg_of false 0 1 1) [0%nat] [1%nat] (store_of [F 1; F 2]) with
  | Ok (est, _) => exists s3, tda_q_values est (store_of [F 5; NaN]) = Ok (tt, s3)
  | Raise _ => False
  end.
Proof.
  destruct (TDA_init nb_mass_exact (cfg_of false 0 1 1) [0%nat] [1%nat] (store_of [F 1; F 2]))
    as [[est s']|e] eqn:H; [|vm_compute in H; discriminate].
  apply (tda_q_values_succeeds _ _ _ _ _ _ _ _ H).
  exists 0%nat. split; [left; reflexivity|reflexivity].
Defined.

(** ** Grouped analyzers: partition and dispatch *)
Lemma py_index_of_nat {A} (l : list A) (i : nat) :
  (i < length l)%nat -> exists a, nth_error l i = Some a /\ py_index l (Z.of_nat i) = Ok a.
Proof.
  intros Hi. destruct (py_index_in l (Z.of_nat i) ltac:(lia)) as (a & Ha & Hp).
  rewrite Nat2Z.id in Ha. exists a; auto.
Qed.

Lemma pass_step fns side r gs s i :
  length gs = length fns -> first_match fns (s r) = Some i ->
  exists gs', (x <- find_group fns r;; lift (append_to_group side x r gs)) s = Ok (gs', s) /\
              length gs' = length fns.
Proof.
  intros Hl Hi. rewrite find_group_step, Hi. unfold append_to_group.
  destruct (py_index_of_nat gs i ltac:(pose proof (first_match_lt _ _ _ Hi); lia)) as (g & _ & ->).
  cbn [rbind]. eexists; split; [reflexivity|]. rewrite length_list_set; exact Hl.
Qed.

Lemma pass_raises_typeerror fns side l : forall gs s e,
  length gs = length fns ->
  foldM (fun gs r => i <- find_group fns r;; lift (append_to_group side i r gs)) l gs s = Raise e ->
  e = TypeError.
Proof.
  induction l as [|r l IH]; intros gs s e Hl H; [discriminate|].
  rewrite foldM_cons in H.
  destruct (first_match fns (s r)) as [i|] eqn:Hi.
  - destruct (pass_step fns side r gs s i Hl Hi) as (gs' & E & Hl').
    rewrite E in H. exact (IH _ _ _ Hl' H).
  - rewrite find_group_step, Hi in H. cbn in H. inversion H; reflexivity.
Qed.

Lemma pass_unmatched fns side l : forall gs s,
  length gs = length fns -> (exists r, In r l /\ first_match fns (s r) = None) ->
  foldM (fun gs r => i <- find_group fns r;; lift (append_to_group side i r gs)) l gs s = Raise TypeError.
Proof.
  induction l as [|r0 l IH]; intros gs s Hl (r & Hr & Hn); [destruct Hr|].
  rewrite foldM_cons.
  destruct (first_match fns (s r0)) as [i|] eqn:Hi.
  - destruct (pass_step fns side r0 gs s i Hl Hi) as (gs' & -> & Hl').
    apply IH; [exact Hl'|]. exists r. split; [|exact Hn].
    destruct Hr as [<-|Hr]; [congruence|exact Hr].
  - rewrite find_group_step, Hi. reflexivity.
Qed.

(** X18: constructing a grouped analyzer raises [TypeError] when a target or
    decoy matches none of the grouping functions. *)
Theorem gtda_unmatched_item_raises pi cfg ts ds fns s
  (H : exists r, In r (ts ++ ds) /\ first_match fns (s r) = None) :
  GTDA_init pi cfg ts ds (Some fns) s = Raise TypeError.
Proof.
  unfold GTDA_init, partition.
  set (gs0 := map (fun _ : predicate => ([] : list ref, [] : list ref)) fns).
  assert (Hl0 : length gs0 = length fns) by (unfold gs0; apply length_map).
  unfold mbind at 1, mbind at 1.
  destruct H as (r & Hr & Hn). apply in_app_or in Hr. destruct Hr as [Hr|Hr].
  - rewrite (pass_unmatched fns true ts gs0 s Hl0 (ex_intro _ r (conj Hr Hn))). reflexivity.
  - destruct (foldM _ ts gs0 s) as [[gs1 s1]|e] eqn:E1.
    + destruct (partition_pass fns true ts gs0 gs1 s s1 Hl0 E1) as (-> & Hl1 & _).
      unfold mbind at 1.
      rewrite (pass_unmatched fns false ds gs1 s ltac:(congruence) (ex_intro _ r (conj Hr Hn))).
      reflexivity.
    + rewrite (pass_raises_typeerror fns true ts gs0 s e Hl0 E1). reflexivity.
Qed.

Lemma gtda_unmatched_item_raises_witness :
  GTDA_init nb_mass_exact (cfg_of false 0 1 1) [0%nat] [1%nat]
    (Some [fun it => f_lt (score it) (F 2)]) (store_of [F 1; F 3]) = Raise TypeError.
Proof.
  apply gtda_unmatched_item_raises.
  exists 1%nat. split; [right; left; reflexivity|reflexivity].
Defined.

Lemma gtda_score_step g r s :
  gtda_score g r s =
  match first_match (grouping_functions g) (s r) with
  | None => Raise TypeError
  | Some i => match py_index (group_fits g) (Z.of_nat i) with
              | Ok fit => tda_score fit r s
              | Raise e => Raise e end
  end.
Proof.
  unfold gtda_score, find_group, get_item, mbind, mret, lift.
  destruct (first_match _ _); [destruct (py_index _ _)|]; reflexivity.
Qed.

(** X19: with the default grouping ([None]) the grouped analyzer holds a
    single fit, the [TargetDecoyAnalyzer] of all targets and decoys, and its
    [score] is that fit's [score]. *)
Theorem default_grouping_is_single_analyzer pi cfg ts ds s g s'
  (H : GTDA_init pi cfg ts ds None s = Ok (g, s')) :
  exists fit, group_fits g = [fit] /\ TDA_init pi cfg ts ds s = Ok (fit, s) /\
    forall r s2, gtda_score g r s2 = tda_score fit r s2.
Proof.
  destruct (GTDA_init_inv _ _ _ _ _ _ _ _ H) as (_ & Hf & Hlen & Hfit).
  simpl in Hf. rewrite Hf in Hlen, Hfit. simpl in Hlen.
  destruct (Hfit 0%nat ltac:(simpl; lia)) as (fit & Hn & Ht).
  assert (Hid : forall l : list ref, filter (fun r => in_group [fun _ : item => true] 0 (s r)) l = l)
    by (intros l; induction l as [|x l IHl]; simpl; [reflexivity|rewrite IHl; reflexivity]).
  rewrite !Hid in Ht.
  exists fit. split; [|split; [exact Ht|]].
  - destruct (group_fits g) as [|f [|f' l]]; simpl in Hlen; try lia.
    simpl in Hn. congruence.
  - intros r s2. rewrite gtda_score_step, Hf. cbn [first_match].
    destruct (py_index_of_nat (group_fits g) 0 ltac:(lia)) as (fit' & Hn' & Hp).
    cbv beta iota. rewrite Hp.
    rewrite Hn in Hn'. inversion Hn'; reflexivity.
Qed.

Lemma default_grouping_is_single_analyzer_witness :
  match GTDA_init nb_mass_exact (cfg_of false 0 1 1) [0%nat] [1%nat] None (store_of [F 1; F 2]) with
  | Ok (g, _) => exists fit, group_fits g = [fit] /\
      TDA_init nb_mass_exact (cfg_of false 0 1 1) [0%nat] [1%nat] (store_of [F 1; F 2])
        = Ok (fit, store_of [F 1; F 2]) /\
      forall r s2, gtda_score g r s2 = tda_score fit r s2
  | Raise _ => False
  end.
Proof.
  destruct (GTDA_init nb_mass_exact (cfg_of false 0 1 1) [0%nat] [1%nat] None (store_of [F 1; F 2]))
    as [[g s']|e] eqn:H; [|vm_compute in H; discriminate].
  exact (default_grouping_is_single_analyzer _ _ _ _ _ _ _ H).
Defined.

Lemma iter_fits_post fits : forall s u s3,
  iterM tda_q_values fits s = Ok (u, s3) ->
  (forall r, score (s3 r) = score (s r)) /\
  (forall r, (forall f, In f fits -> ~ In r (tda_targets f ++ tda_decoys f)) -> s3 r = s r) /\
  (forall j f r, nth_error fits j = Some f -> In r (tda_targets f ++ tda_decoys f) ->
     (forall j' f', j' <> j -> nth_error fits j' = Some f' -> ~ In r (tda_targets f' ++ tda_decoys f')) ->
     q_value_of (_q_value_map f) (score (s r)) = Ok (q_value (s3 r))).
Proof.
  induction fits as [|f0 fits IH]; intros s u s3 H.
  - simpl in H; inversion H; subst. split; [reflexivity|split; [reflexivity|]].
    intros [|j]; discriminate.
  - rewrite iterM_cons in H.
    destruct (tda_q_values f0 s) as [[u1 s1]|e] eqn:E1; [|discriminate].
    destruct (tda_q_values_post _ _ _ _ E1) as (Hs1 & Hin1 & Hout1).
    destruct (IH _ _ _ H) as (Hs & Hout & Hin). clear IH H.
    split; [intros r; rewrite Hs; apply Hs1|split].
    + intros r Hr. rewrite Hout, Hout1; [reflexivity| |].
      * apply Hr; left; reflexivity.
      * intros f Hf; apply Hr; right; exact Hf.
    + intros [|j] f r Hf Hrf Hoth; simpl in Hf.
      * inversion Hf; subst f0.
        rewrite (Hout r).
        { apply Hin1, Hrf. }
        intros f' Hf'. destruct (In_nth_error _ _ Hf') as (j' & Hj').
        exact (Hoth (S j') f' ltac:(lia) Hj').
      * rewrite <- Hs1. apply (Hin j f r Hf Hrf).
        { intros j' f' Hj Hj'. exact (Hoth (S j') f' ltac:(lia) Hj'). }
Qed.

(** X20: after a successful grouped [q_values()], every score is unchanged,
    each target or decoy holds the q-value of the fit of the group it
    matched first at construction, and the other items are unchanged. *)
Theorem gtda_q_values_first_group pi cfg ts ds grouping s g s' s2 u s3
  (H : GTDA_init pi cfg ts ds grouping s = Ok (g, s'))
  (Hq : gtda_q_values g s2 = Ok (u, s3)) :
  (forall r, score (s3 r) = score (s2 r)) /\
  (forall r i, In r (ts ++ ds) -> first_match (grouping_functions g) (s r) = Some i ->
     exists fit, nth_error (group_fits g) i = Some fit /\
       q_value_of (_q_value_map fit) (score (s2 r)) = Ok (q_value (s3 r))) /\
  (forall r, (In r (ts ++ ds) -> first_match (grouping_functions g) (s r) = None) -> s3 r = s2 r).
Proof.
  destruct (GTDA_init_inv _ _ _ _ _ _ _ _ H) as (_ & _ & Hlen & Hfit).
  destruct (iter_fits_post _ _ _ _ Hq) as (Hs & Hout & Hin).
  set (fns := grouping_functions g) in *.
  assert (Hmem : forall j f r, nth_error (group_fits g) j = Some f ->
            In r (tda_targets f ++ tda_decoys f) <-> In r (ts ++ ds) /\ in_group fns j (s r) = true).
  { intros j f r Hj.
    assert (Hlt : (j < length fns)%nat) by (rewrite <- Hlen; apply nth_error_Some; congruence).
    destruct (Hfit j Hlt) as (f' & Hf' & Ht). rewrite Hj in Hf'. inversion Hf'; subst f'.
    destruct (TDA_init_inv _ _ _ _ _ _ _ Ht) as (_ & -> & -> & _).
    rewrite <- filter_app, filter_In. reflexivity. }
  split; [exact Hs|split].
  - intros r i Hr Hi.
    assert (Hlt : (i < length fns)%nat) by exact (first_match_lt _ _ _ Hi).
    destruct (Hfit i Hlt) as (fit & Hf & _).
    exists fit. split; [exact Hf|].
    apply (Hin i fit r Hf).
    + apply (Hmem i fit r Hf). split; [exact Hr|]. unfold in_group. rewrite Hi. apply Nat.eqb_refl.
    + intros j' f' Hj Hj' Hr'. apply (Hmem j' f' r Hj') in Hr'. destruct Hr' as (_ & Hg).
      unfold in_group in Hg. rewrite Hi in Hg. apply Nat.eqb_eq in Hg. congruence.
  - intros r Hr. apply Hout. intros f Hf Hrf.
    destruct (In_nth_error _ _ Hf) as (j & Hj).
    apply (Hmem j f r Hj) in Hrf. destruct Hrf as (Hr' & Hg).
    unfold in_group in Hg. rewrite (Hr Hr') in Hg. discriminate.
Qed.

Lemma gtda_q_values_first_group_witness :
  match GTDA_init nb_mass_exact (cfg_of false 0 1 1) [0%nat; 1%nat] [2%nat]
          (Some [fun it => f_lt (score it) (F 3); fun _ => true]) (store_of [F 1; F 4; F 2]) with
  | Ok (g, _) =>
    match gtda_q_values g (store_of [F 1; F 4; F 2]) with
    | Ok (_, s3) =>
      (exists fit, nth_error (group_fits g) 0 = Some fit /\
         q_value_of (_q_value_map fit) (F 2) = Ok (q_value (s3 2%nat))) /\
      s3 3%nat = store_of [F 1; F 4; F 2] 3%nat
    | Raise _ => False
    end
  | Raise _ => False
  end.
Proof.
  destruct (GTDA_init nb_mass_exact (cfg_of false 0 1 1) [0%nat; 1%nat] [2%nat]
              (Some [fun it => f_lt (score it) (F 3); fun _ => true]) (store_of [F 1; F 4; F 2]))
    as [[g s']|e] eqn:H; [|vm_compute in H; discriminate].
  pose proof H as H0. vm_compute in H0. injection H0 as Hg _.
  destruct (gtda_q_values g (store_of [F 1; F 4; F 2])) as [[u s3]|e] eqn:H2;
    [|subst g; vm_compute in H2; discriminate].
  destruct (gtda_q_values_first_group _ _ _ _ _ _ _ _ _ _ _ H H2) as (_ & Hin & Hout).
  split.
  - apply (Hin 2%nat 0%nat); [right; right; left; reflexivity|subst g; reflexivity].
  - apply Hout. intros [Hr|[Hr|[Hr|[]]]]; discriminate.
Defined.

(** ** The calibration curve without PIT *)

(** X21: without PIT and with [decoy_correction = 0], for targets
    and decoys whose scores are not NaN, the calibration curve stored by the
    analyzer has strictly increasing thresholds and non-increasing q-values
    (all Python floats), and for observed scores [s1 < s2] the lookups
    [q_value_of(s1) >= q_value_of(s2)]. *)
Theorem curve_monotone_without_pit_or_correction pi cfg ts ds s est s'
  (Hpit : with_pit cfg = false) (Hdc : (decoy_correction cfg == 0)%Q)
  (Hnan : forall r, In r (ts ++ ds) -> np_isnan (score (s r)) = false)
  (H : TDA_init pi cfg ts ds s = Ok (est, s')) :
  StronglySorted curve_rel (nvl_items (_q_value_map est)) /\
  forall r1 r2, In r1 (ts ++ ds) -> In r2 (ts ++ ds) ->
    f_lt (score (s r1)) (score (s r2)) = true ->
    exists q1 q2,
      q_value_of (_q_value_map est) (score (s r1)) = Ok (PyN q1) /\
      q_value_of (_q_value_map est) (score (s r2)) = Ok (PyN q2) /\ (q2 <= q1)%Q.
Proof.
  destruct (TDA_init_inv _ _ _ _ _ _ _ H) as (-> & _ & _ & Hc & Hm).
  set (c := tda_fields est) in *.
  assert (Hcfg : tda_cfg c = cfg) by exact (build_core_cfg _ _ _ _ Hc).
  assert (Hn : forall ts', incl ts' (ts ++ ds) -> Forall nonnan (map (fun r => score (s r)) ts')).
  { intros ts' Hi. apply Forall_forall. intros x Hx. apply in_map_iff in Hx.
    destruct Hx as (r & <- & Hr). apply Hnan, Hi, Hr. }
  destruct (thresholds_strict _ _ _ _ (Hn ts (incl_appl _ (incl_refl _)))
              (Hn ds (incl_appr _ (incl_refl _))) Hc) as (Hths & Hthn & Hthi).
  unfold _calculate_q_values in Hm.
  set (L := py_sorted (fun x => x) (thresholds c)) in Hm.
  assert (HL : StronglySorted flt L) by (apply py_sorted_strict; [apply strict_nodup|]; auto).
  destruct (fold_left (q_value_step pi c) L (Ok qv_init)) as [st|e] eqn:Ef; [|discriminate].
  cbn [rbind] in Hm. inversion Hm as [Hmap]. clear Hm.
  assert (Hfdr : forall x, In x L ->
            match fdr_with_percent_incorrect_targets pi c x with
            | Ok (PyN _) => True | Ok (NpN _) => False
            | Raise e => e <> ZeroDivisionError end)
    by (intros x _; apply fdr_plain; rewrite Hcfg; auto).
  assert (Hlq : exists lq, last_q_value qv_init = PyN lq /\
            (mapping qv_init <> [] ->
               Forall (fun a => exists qa, snd a = PyN qa /\ (lq <= qa)%Q) (mapping qv_init) /\
               forall x, In x L -> f_lt (last_score qv_init) x = true))
    by (exists 0%Q; split; [reflexivity|]; intros Hne; contradiction Hne; reflexivity).
  destruct (q_value_fold pi c L qv_init st HL Hfdr (Forall_nil _) (SSorted_nil _) Hlq
              (Forall_nil _) Ef) as (Hp & Hs & Hk).
  simpl in Hk.
  set (arr := mapping st) in *.
  assert (HLin : forall x, In x (map fst arr) <-> In x (thresholds c))
    by (intros x; rewrite Hk; unfold L; apply In_py_sorted).
  assert (Harr : nvl_items (_q_value_map est) = arr).
  { rewrite <- Hmap. cbn [nvl_items NVL_init]. rewrite filter_all.
    - apply py_sorted_sorted. eapply StronglySorted_impl'; [|exact Hs].
      intros a b [Hab _]; exact Hab.
    - apply Forall_forall. intros a Ha. apply negb_true_iff.
      assert (Hin : In (fst a) (thresholds c)) by (apply HLin, in_map, Ha).
      exact (proj1 (Forall_forall _ _) Hthn _ Hin). }
  assert (Hstr : forall i j a b, (i < j)%nat -> nth_error arr i = Some a ->
                   nth_error arr j = Some b -> f_lt (fst a) (fst b) = true)
    by (intros i j a b Hij Ha Hb; exact (proj1 (StronglySorted_nth _ _ _ _ _ _ Hs Hij Ha Hb))).
  assert (Hnn : forall i a, nth_error arr i = Some a -> np_isnan (fst a) = false).
  { intros i a Ha. apply nth_error_In in Ha.
    assert (Hin : In (fst a) (thresholds c)) by (apply HLin, in_map, Ha).
    exact (proj1 (Forall_forall _ _) Hthn _ Hin). }
  split.
  { assert (E : nvl_items (NVL_init arr) = arr) by (rewrite Hmap; exact Harr).
    first [rewrite Harr | rewrite E]; exact Hs. }
  intros r1 r2 H1 H2 Hlt.
  assert (Hidx : forall r, In r (ts ++ ds) -> exists m q, nth_error arr m = Some (score (s r), q)).
  { intros r Hr. assert (Hin : In (score (s r)) (map fst arr)).
    { apply HLin, Hthi. rewrite <- map_app. apply (in_map (fun r => score (s r))), Hr. }
    apply in_map_iff in Hin. destruct Hin as ([k q] & Ek & Hin). simpl in Ek; subst k.
    apply In_nth_error in Hin. destruct Hin as (m & Hm). exists m, q; exact Hm. }
  destruct (Hidx r1 H1) as (m1 & q1 & Hm1).
  destruct (Hidx r2 H2) as (m2 & q2 & Hm2).
  assert (Hm12 : (m1 < m2)%nat).
  { destruct (Nat.lt_trichotomy m1 m2) as [Hl|[Hl|Hl]]; auto.
    - subst m2. rewrite Hm1 in Hm2. inversion Hm2 as [Heq]. rewrite Heq, f_lt_irrefl in Hlt. discriminate.
    - pose proof (Hstr _ _ _ _ Hl Hm2 Hm1) as Hr. simpl in Hr.
      rewrite (f_lt_asym _ _ Hr) in Hlt. discriminate. }
  assert (Hq : _q_value_map est = {| nvl_items := arr |})
    by (destruct (_q_value_map est); simpl in Harr; congruence).
  assert (Hq' : NVL_init arr = {| nvl_items := arr |}) by (rewrite Hmap; exact Hq).
  unfold q_value_of. rewrite ?Hq, ?Hq'.
  destruct (nvl_getitem_found arr Hstr Hnn (PyN 0) _ _ _ Hm1) as (j1 & k1 & v1 & Hj1 & Hv1 & Hg1).
  destruct (nvl_getitem_found arr Hstr Hnn (PyN 0) _ _ _ Hm2) as (j2 & k2 & v2 & Hj2 & Hv2 & Hg2).
  rewrite Hg1, Hg2.
  destruct (Nat.eq_dec j1 j2) as [<-|Hne].
  - rewrite Hv1 in Hv2. inversion Hv2; subst.
    destruct (proj1 (Forall_forall _ _) Hp _ (nth_error_In _ _ Hv1)) as (q & Eq). simpl in Eq; subst.
    exists q, q. split; [reflexivity|split; [reflexivity|apply Qle_refl]].
  - destruct (StronglySorted_nth _ _ j1 j2 _ _ Hs ltac:(lia) Hv1 Hv2) as (_ & qa & qb & Ea & Eb & Hle).
    simpl in Ea, Eb; subst. exists qa, qb. auto.
Qed.

Lemma curve_monotone_without_pit_or_correction_witness :
  match TDA_init nb_mass_exact (cfg_of false 0 1 1) [0%nat] [1; 2]%nat (store_of [F 1; F 2; F 2]) with
  | Ok (est, _) =>
      StronglySorted curve_rel (nvl_items (_q_value_map est)) /\
      exists q1 q2,
        q_value_of (_q_value_map est) (F 1) = Ok (PyN q1) /\
        q_value_of (_q_value_map est) (F 2) = Ok (PyN q2) /\ (q2 <= q1)%Q
  | Raise _ => False
  end.
Proof.
  destruct (TDA_init nb_mass_exact (cfg_of false 0 1 1) [0%nat] [1; 2]%nat
              (store_of [F 1; F 2; F 2])) as [[est s']|e] eqn:H; [|cbv in H; discriminate].
  assert (Hnan : forall r, In r ([0%nat] ++ [1; 2]%nat) ->
                   np_isnan (score (store_of [F 1; F 2; F 2] r)) = false)
    by (intros r Hr; simpl in Hr; destruct Hr as [ <- | [ <- | [ <- | [] ] ] ]; reflexivity).
  destruct (curve_monotone_without_pit_or_correction nb_mass_exact (cfg_of false 0 1 1) _ _ _ _ _
              eq_refl (Qeq_refl 0) Hnan H) as [Hs Hm].
  split; [exact Hs|].
  exact (Hm 0%nat 1%nat ltac:(simpl; auto) ltac:(simpl; auto) eq_refl).
Defined.
